(** * pyscf/fci/direct_dip_corr.py: the dipole-correlation FCI driver

    A shallow embedding of [kernel_lanczos], [FCIBase.kernel],
    [FCIBase.energy] and the helpers they call, and the properties of the
    specification checked against it; then [kernel_ms1], the pspace
    preconditioner, the initial guess and the arithmetic of [absorb_h1e],
    with properties read off the code.

    Numbers.  Python floats and numpy float64 arrays are modelled by exact
    reals [R], numpy complex128 by pairs of reals.  Where numpy would leave
    the finite numbers (a division by a zero norm yields [inf] or [nan] and
    the program goes on) the model stops with [Halt NonFinite].  Rounding
    and overflow are outside the model (also the [OverflowError] of
    [math.factorial(lanczos-1)/nrm] for a Krylov dimension of 172 or more);
    where a statement depends on rounding, the lines in question are
    replayed in IEEE binary64 (module [Binary64]).

    Exceptions.  A computation is a [run]: it returns ([Ok]), raises a
    Python exception ([Raise]) or leaves the model ([Halt]).

    Collaborators.  Functions that live outside this file
    ([lib.lanczos_tridiagonalize], [scipy.linalg.eigh],
    [scipy.linalg.eigh_tridiagonal], [scipy.linalg.expm], the native
    contraction kernels, the Davidson solver) are fields of the record
    [collaborators]; nothing is assumed about them unless a theorem says so.

    Console output ([print], the logger) and what only feeds it (the calls
    of [energy] on lines 789 and 899-900, [perm_dipole]) are not modelled;
    the files written by [numpy.save] / [numpy.savetxt] are recorded in an
    event log.  Arrays are lists; a shape that numpy would reject raises
    [ValueError] where the driver itself indexes or multiplies, and is taken
    to conform inside the collaborators. *)

From Stdlib Require Import String DecimalString Reals Lra Lia ZArith Arith Bool List.
From Stdlib Require Floats.
Import ListNotations.
Local Open Scope R_scope.

(* ================================================================== *)
(** ** Python outcomes *)

Module Py.

Inductive exn : Set :=
| ZeroDivisionError
| IndexError
| ValueError
| AttributeError
| NotImplementedError
| NameError
| TypeError.

(** Why the model stopped following the program. *)
Inductive halt : Set :=
| OutOfFuel    (* the [while] loop was cut off by the fuel bound *)
| NonFinite.   (* a float left the finite numbers *)

Inductive run (A : Type) : Type :=
| Ok (a : A)
| Raise (e : exn)
| Halt (h : halt).

Arguments Ok {A} a.
Arguments Raise {A} e.
Arguments Halt {A} h.

Definition bind {A B : Type} (c : run A) (k : A -> run B) : run B :=
  match c with
  | Ok a => k a
  | Raise e => Raise e
  | Halt h => Halt h
  end.

Definition is_ok {A : Type} (c : run A) : bool :=
  match c with Ok _ => true | _ => false end.

Definition raises {A : Type} (c : run A) : option exn :=
  match c with Raise e => Some e | _ => None end.

(** [xs[i]] on a Python sequence, for a non-negative index. *)
Definition getitem {A : Type} (xs : list A) (i : nat) : run A :=
  match nth_error xs i with
  | Some x => Ok x
  | None => Raise IndexError
  end.

(** [for x in xs: ...] threading an accumulator through a fallible body. *)
Fixpoint for_each {A S : Type} (body : S -> A -> run S) (xs : list A) (s : S)
  : run S :=
  match xs with
  | [] => Ok s
  | x :: xs' => bind (body s x) (for_each body xs')
  end.

(** [[f(x) for x in xs]] with a fallible [f]. *)
Fixpoint map_run {A B : Type} (f : A -> run B) (xs : list A) : run (list B) :=
  match xs with
  | [] => Ok []
  | x :: xs' => bind (f x) (fun y => bind (map_run f xs') (fun ys => Ok (y :: ys)))
  end.

(** [range(n)] *)
Definition range (n : nat) : list nat := seq 0 n.

(** [str(i)] for a non-negative integer. *)
Definition str (i : nat) : string := NilEmpty.string_of_uint (Nat.to_uint i).

End Py.
Import Py.

Declare Scope run_scope.
Delimit Scope run_scope with run.
Notation "x <- c ;; k" := (bind c (fun x => k))
  (at level 61, c at next level, right associativity) : run_scope.
Notation "' p <- c ;; k" := (bind c (fun x => let p := x in k))
  (at level 61, p pattern, c at next level, right associativity) : run_scope.
Local Open Scope run_scope.

(* ================================================================== *)
(** ** Complex numbers (numpy complex128) *)

Module Cplx.

Record C : Type := mkC { re : R; im : R }.

Definition C0 : C := mkC 0 0.
Definition C1 : C := mkC 1 0.
(** [1j] *)
Definition Ci : C := mkC 0 1.
(** a real number read as a complex one (numpy's upcast) *)
Definition RtoC (x : R) : C := mkC x 0.

Definition Cadd (a b : C) : C := mkC (re a + re b) (im a + im b).
Definition Cneg (a : C) : C := mkC (- re a) (- im a).
Definition Cmul (a b : C) : C :=
  mkC (re a * re b - im a * im b) (re a * im b + im a * re b).
Definition Cscale (x : R) (a : C) : C := mkC (x * re a) (x * im a).
(** [z.conj()] *)
Definition Cconj (a : C) : C := mkC (re a) (- im a).
(** [abs(z)**2] *)
Definition Cnorm2 (a : C) : R := re a * re a + im a * im a.
(** [numpy.exp(z)] *)
Definition Cexp (a : C) : C := mkC (exp (re a) * cos (im a)) (exp (re a) * sin (im a)).

Lemma C_eq (a b : C) : re a = re b -> im a = im b -> a = b.
Proof. destruct a, b; simpl; intros -> ->; reflexivity. Qed.

End Cplx.
Import Cplx.

(* ================================================================== *)
(** ** The numpy operations the driver uses *)

Module Numpy.

Definition rvec := list R.
Definition cvec := list C.
Definition rmat := list (list R).
Definition cmat := list (list C).

(** upcast of a real array to complex *)
Definition upcast (v : rvec) : cvec := map RtoC v.
Definition upcast2 (m : rmat) : cmat := map upcast m.
(** [a.real] *)
Definition real (v : cvec) : rvec := map re v.
Definition real2 (m : cmat) : rmat := map real m.
(** [a.imag] *)
Definition imag (v : cvec) : rvec := map im v.

Fixpoint csum (v : cvec) : C :=
  match v with
  | [] => C0
  | z :: v' => Cadd z (csum v')
  end.

Fixpoint rsum (v : rvec) : R :=
  match v with
  | [] => 0
  | x :: v' => x + rsum v'
  end.

(** [numpy.dot(a, b)] on two 1-D arrays: no conjugation; the lengths must
    agree. *)
Definition dot (a b : cvec) : run C :=
  if Nat.eqb (length a) (length b)
  then Ok (csum (map (fun p => Cmul (fst p) (snd p)) (combine a b)))
  else Raise ValueError.

(** [numpy.linalg.norm(v)] of a real and of a complex 1-D array. *)
Definition norm (v : rvec) : R := sqrt (rsum (map (fun x => x * x) v)).
Definition cnorm (v : cvec) : R := sqrt (rsum (map Cnorm2 v)).

(** [numpy.einsum('ij,j->i', M, v)] (and, renaming the indices,
    [numpy.einsum('ji,i->j', M, v)]): every row of [M] against [v]. *)
Definition einsum_ij_j (M : cmat) (v : cvec) : run cvec :=
  map_run (fun row => dot row v) M.

(** [a * b] on two 1-D arrays, with numpy's broadcasting of a length-one
    operand. *)
Definition mul_broadcast (a b : rvec) : run rvec :=
  if Nat.eqb (length a) (length b) then Ok (map (fun p => fst p * snd p) (combine a b))
  else match a, b with
       | [x], _ => Ok (map (fun y => x * y) b)
       | _, [y] => Ok (map (fun x => x * y) a)
       | _, _ => Raise ValueError
       end.

(** [M[:, j]] for a non-negative [j]. *)
Definition column {K : Type} (M : list (list K)) (j : nat) : run (list K) :=
  map_run (fun row => getitem row j) M.

(** [numpy.zeros((n, n))] and [M[r, c] = x] on it. *)
Definition zeros2 {K : Type} (zero : K) (n : nat) : list (list K) :=
  repeat (repeat zero n) n.

Fixpoint set_nth {K : Type} (xs : list K) (i : nat) (x : K) : list K :=
  match xs, i with
  | [], _ => []
  | _ :: xs', O => x :: xs'
  | y :: xs', S i' => y :: set_nth xs' i' x
  end.

Definition setitem2 {K : Type} (M : list (list K)) (r c : nat) (x : K)
  : run (list (list K)) :=
  match nth_error M r with
  | Some row => if Nat.ltb c (length row)
                then Ok (set_nth M r (set_nth row c x))
                else Raise IndexError
  | None => Raise IndexError
  end.

(** the scalar multiple [z * M] of a matrix *)
Definition cmat_scale (z : C) (M : cmat) : cmat := map (map (Cmul z)) M.

End Numpy.
Import Numpy.

(* ================================================================== *)
(** ** Collaborators *)

(** What [lib.lanczos_tridiagonalize] returns: the Krylov basis [A] and the
    first columns [alpha[:,0]], [beta[:,0]] of the two coefficient arrays. *)
Record krylov (K : Type) : Type := mkKrylov {
  basis : list (list K);
  alpha : list K;
  beta : list K
}.
Arguments mkKrylov {K} basis alpha beta.
Arguments basis {K} k.
Arguments alpha {K} k.
Arguments beta {K} k.

Record collaborators : Type := mkCollaborators {
  (** [fci.contract_2e(h2e, c, norb, nelec, link_index).ravel()] *)
  contract_2e_h2e : rvec -> rvec;
  (** [contract_1e(mo_dip[i], c, norb, nelec, link_index)] for axis [i] *)
  contract_1e_dip : nat -> rvec -> rvec;
  (** [lib.lanczos_tridiagonalize(aop, x0, ...)] on a real and on a complex
      seed *)
  lanczos_real : (rvec -> rvec) -> rvec -> krylov R;
  lanczos_complex : (cvec -> cvec) -> cvec -> krylov C;
  (** [scipy.linalg.eigh_tridiagonal(d, e)]: eigenvalues, eigenvectors *)
  eigh_tridiagonal : rvec -> rvec -> rvec * rmat;
  (** [scipy.linalg.eigh(Ht)]: real eigenvalues, complex eigenvectors *)
  eigh : cmat -> rvec * cmat;
  (** [scipy.linalg.expm] *)
  expm : cmat -> cmat;
  (** [fci.pspace(...)] past its guards: the addresses and [h0], and
      [fci.eig(h0)] *)
  pspace_select : nat -> list nat * rmat;
  eig_dense : rmat -> rvec * rmat;
  (** [lib.davidson1(...)] as called by [fci.eig(hop, ci0, precond, ...)]
      (lines 727-766, with the initial guess completed as lines 727-753
      do) for [nroots] roots: the energies and the vectors *)
  davidson : option (list rvec) -> option (rvec * rmat) -> list nat -> nat
             -> rvec * list rvec
}.

(* ================================================================== *)
(** ** The Lanczos propagator: the pieces of [kernel_lanczos] *)

(** [xs[0:stop]] with Python's reading of a negative [stop]. *)
Definition slice_to {K : Type} (xs : list K) (stop : Z) : list K :=
  if (stop <? 0)%Z then firstn (Z.to_nat (Z.of_nat (length xs) + stop)) xs
  else firstn (Z.to_nat stop) xs.

(** Lines 812-818 and 882-888: the assembly of [Ht] from the recurrence
    coefficients.  [sub] is what is applied to the sub-diagonal entry: the
    identity on the first pass, [conj] on the later ones. *)
Definition build_Ht_step {K : Type} (sub : K -> K) (alpha beta : list K)
  (len_tdiag : nat) (Ht : list (list K)) (p : nat) : run (list (list K)) :=
  a <- getitem alpha p ;;
  Ht <- setitem2 Ht p p a ;;
  if (Z.of_nat p <? Z.of_nat len_tdiag - 2)%Z then
    b <- getitem beta p ;;
    Ht <- setitem2 Ht p (p + 1) b ;;
    b' <- getitem beta p ;;
    setitem2 Ht (p + 1) p (sub b')
  else Ok Ht.

Definition build_Ht {K : Type} (zero : K) (sub : K -> K) (alpha beta : list K)
  : run (list (list K)) :=
  let len_tdiag := length alpha in
  for_each (build_Ht_step sub alpha beta len_tdiag)
           (range len_tdiag) (zeros2 zero len_tdiag).

(** [T[:, -1]] *)
Definition last_column {K : Type} (M : list (list K)) : run (list K) :=
  map_run (fun row => match row with
                      | [] => Raise IndexError
                      | _ => getitem row (length row - 1)
                      end) M.

(** Lines 822-828.  [T] and [v] are real arrays, so [.conj()] is the
    identity. *)
Definition time_limit (T : rmat) (v : rvec) (thr : R) (lanczos : nat) : run R :=
  match lanczos with
  | O =>
      (* lanczos-1 = -1: the power and the column exist, math.factorial(-1)
         raises *)
      col <- last_column T ;;
      _ <- mul_broadcast (map (fun x => / x) v) col ;;
      Raise ValueError
  | S k =>
      let lp := map (fun x => x ^ k) v in
      col <- column T k ;;
      vTdag <- mul_broadcast lp col ;;
      let nrm := norm vTdag in
      match k with
      | O => (* 1.0/(lanczos-1) *) Raise ZeroDivisionError
      | S _ =>
          if Req_dec_T nrm 0 then Halt NonFinite
          else
            let ratio := INR (fact k) / nrm in
            Ok (Rpower ratio (1 / INR k) * Rpower thr (0.5 / INR k))
      end
  end.

(** What the driver does besides computing: the two skipped axes, the calls
    of the tridiagonalisation, the files written. *)
Inductive artifact : Type :=
| Projections (xs : list cvec)
| Hamiltonians (xs : list cmat)
| Nodes (xs : list R).

Inductive event : Type :=
| SkipLoop (i : nat)
| Tridiagonalize (i : nat)
| Save (name : string) (content : artifact).

(** The variables of the propagation loop. *)
Record loop_state : Type := mkLoop {
  A : list cvec;
  len_tdiag : nat;
  Ht : cmat;
  t_lim : R;
  U : cmat;
  d : cvec;
  t : R;
  refresh : nat;
  grid : list R;
  dipole_corr : list C;
  list_left : list cvec;
  list_htdiag : list cmat;
  log : list event
}.

(** What one restart computes: the Krylov basis, its dimension, the reduced
    Hamiltonian, its eigenvalues and eigenvectors, the time step. *)
Record restart : Type := mkRestart {
  r_A : list cvec;
  r_len_tdiag : nat;
  r_Ht : cmat;
  r_w : rvec;
  r_T : cmat;
  r_t_lim : R
}.

Section Propagator.

Variable E : collaborators.

(** Lines 717-725. *)
Definition hop (c : rvec) : rvec := contract_2e_h2e E c.

Definition hop_complex (c : cvec) : cvec :=
  let hc_real := contract_2e_h2e E (real c) in
  let hc_imag := contract_2e_h2e E (imag c) in
  map (fun p => Cadd (RtoC (fst p)) (Cmul Ci (RtoC (snd p)))) (combine hc_real hc_imag).

(** [U = scipy.linalg.expm(-(1j)*Ht*t_lim)] *)
Definition propagator (Ht : cmat) (t_lim : R) : cmat :=
  expm E (map (map (fun z => Cmul (Cmul (Cneg Ci) z) (RtoC t_lim))) Ht).

(** Lines 849-852 and 905-908. *)
Definition project_dipole (A : list cvec) (len_tdiag : nat) (mu : rvec) : run cvec :=
  map_run (fun k => A_tmp <- getitem A k ;; dot A_tmp (upcast mu)) (range len_tdiag).

(** [numpy.dot(Amu0, d)*numpy.exp(1j*e*t)] *)
Definition sample (Amu0 d : cvec) (e t : R) : run C :=
  x <- dot Amu0 d ;;
  Ok (Cmul x (Cexp (Cmul (Cmul Ci (RtoC e)) (RtoC t)))).

(** [d = numpy.zeros((len_tdiag), complex); d[0] = 1.0 + 1j*0.0] *)
Definition first_basis_vector (len_tdiag : nat) : run cvec :=
  match len_tdiag with
  | O => Raise IndexError
  | S n => Ok (Cadd (RtoC 1) (Cmul Ci (RtoC 0)) :: repeat C0 n)
  end.

(** Lines 805-832: the Krylov basis of the real seed [mu], the reduced
    Hamiltonian, its eigenpairs and the time step. *)
Definition restart_real (mu : rvec) : run restart :=
  let k := lanczos_real E hop mu in
  let len_tdiag := length (alpha k) in
  Ht <- build_Ht 0 (fun b => b) (alpha k) (beta k) ;;
  let '(w, T) := eigh_tridiagonal E (slice_to (alpha k) (Z.of_nat len_tdiag))
                                    (slice_to (beta k) (Z.of_nat len_tdiag - 1)) in
  t_lim <- time_limit T w 1e-6 len_tdiag ;;
  Ok (mkRestart (upcast2 (basis k)) len_tdiag (upcast2 Ht) w (upcast2 T) t_lim).

(** Lines 877-892: the same for the complex vector [fcivec]. *)
Definition restart_complex (fcivec : cvec) : run restart :=
  let k := lanczos_complex E hop_complex fcivec in
  let len_tdiag := length (alpha k) in
  Ht <- build_Ht C0 Cconj (alpha k) (beta k) ;;
  let '(w, T) := eigh E Ht in
  t_lim <- time_limit (real2 T) w 1e-6 len_tdiag ;;
  Ok (mkRestart (basis k) len_tdiag Ht w T t_lim).

(** Lines 805-861: the first, real-valued restart of axis [i] with seed
    [mu], up to the head of the [while] loop. *)
Definition first_restart (e : R) (mu : rvec) (i : nat) (log0 : list event)
  : run loop_state :=
  r <- restart_real mu ;;
  d <- first_basis_vector (r_len_tdiag r) ;;
  let t := 0 in
  let grid := [t] in
  _ <- einsum_ij_j (r_A r) (upcast mu) ;;
  Amu0 <- project_dipole (r_A r) (r_len_tdiag r) mu ;;
  x <- sample Amu0 d e t ;;
  let U := propagator (r_Ht r) (r_t_lim r) in
  let t := t + r_t_lim r in
  Ok (mkLoop (r_A r) (r_len_tdiag r) (r_Ht r) (r_t_lim r) U d t 1
             (grid ++ [t]) [x] [Amu0] [r_Ht r]
             (log0 ++ [Tridiagonalize i])).

(** [fcivec += A_tmp*d_next[k]] *)
Definition iadd_scaled (fcivec A_tmp : cvec) (z : C) : run cvec :=
  if Nat.eqb (length A_tmp) (length fcivec)
  then Ok (map (fun p => Cadd (fst p) (Cmul (snd p) z)) (combine fcivec A_tmp))
  else match A_tmp with
       | [a] => Ok (map (fun x => Cadd x (Cmul a z)) fcivec)
       | _ => Raise ValueError
       end.

(** Lines 867-875: the full-space vector rebuilt from the Krylov basis and
    the propagated amplitudes, then normalised. *)
Definition reconstruct (nconf : nat) (A : list cvec) (len_tdiag : nat) (d_next : cvec)
  : run cvec :=
  fcivec <- for_each (fun fcivec k =>
                        A_tmp <- getitem A k ;;
                        z <- getitem d_next k ;;
                        iadd_scaled fcivec A_tmp z)
                     (range len_tdiag) (repeat C0 nconf) ;;
  let nrm := cnorm fcivec in
  if Req_dec_T nrm 0 then Halt NonFinite
  else Ok (map (Cscale (/ nrm)) fcivec).

(** Lines 864-915: one pass through the body of the [while] loop. *)
Definition loop_body (e : R) (mu : rvec) (nconf : nat) (i : nat) (s : loop_state)
  : run loop_state :=
  d_next <- einsum_ij_j (U s) (d s) ;;
  fcivec <- reconstruct nconf (A s) (len_tdiag s) d_next ;;
  r <- restart_complex fcivec ;;
  let refresh := (refresh s + 1)%nat in
  let U := propagator (r_Ht r) (r_t_lim r) in
  _ <- einsum_ij_j (r_A r) (upcast mu) ;;
  Amu0 <- project_dipole (r_A r) (r_len_tdiag r) mu ;;
  x <- sample Amu0 (d s) e (t s) ;;
  let t := t s + r_t_lim r in
  Ok (mkLoop (r_A r) (r_len_tdiag r) (r_Ht r) (r_t_lim r) U (d s) t refresh
             (grid s ++ [t]) (dipole_corr s ++ [x])
             (list_left s ++ [Amu0]) (list_htdiag s ++ [r_Ht r])
             (log s ++ [Tridiagonalize i])).

(** Line 863: [while (t < maxtime)], cut off after [fuel] passes. *)
Fixpoint while_loop (fuel : nat) (maxtime e : R) (mu : rvec) (nconf i : nat)
  (s : loop_state) : run loop_state :=
  if Rlt_dec (t s) maxtime then
    match fuel with
    | O => Halt OutOfFuel
    | S fuel' => s' <- loop_body e mu nconf i s ;;
                 while_loop fuel' maxtime e mu nconf i s'
    end
  else Ok s.

(** Lines 918-920: the three files of axis [i].  ([numpy.array] of restarts
    of differing Krylov dimension is not modelled: the lists are kept as
    they are.) *)
Definition save_artifacts (i : nat) (s : loop_state) : list event :=
  [ Save ("dip_" ++ str i ++ ".npy") (Projections (list_left s));
    Save ("Ht_" ++ str i ++ ".npy") (Hamiltonians (list_htdiag s));
    Save ("lan_nodes_" ++ str i ++ ".txt") (Nodes (grid s)) ].

(** Lines 805-922: everything the axis loop does for an axis it does not
    skip. *)
Definition propagate_axis (fuel : nat) (maxtime : option R) (e : R) (mu : rvec)
  (nconf i : nat) (log0 : list event) : run loop_state :=
  s0 <- first_restart e mu i log0 ;;
  s <- match maxtime with
       | None => (* t < None *) Raise TypeError
       | Some maxtime => while_loop fuel maxtime e mu nconf i s0
       end ;;
  Ok (mkLoop (A s) (len_tdiag s) (Ht s) (t_lim s) (U s) (d s) (t s) (refresh s)
             (grid s) (dipole_corr s) (list_left s) (list_htdiag s)
             (log s ++ save_artifacts i s)).

End Propagator.

(* ================================================================== *)
(** ** The drivers *)

(** The arguments of a call, as far as the drivers look at them.  [na] and
    [nb] are the string counts read off the link tables; [ci0 = None] is an
    initial guess that was not supplied; [maxtime = None] is the default of
    the keyword. *)
Record arguments : Type := mkArguments {
  norb : nat;
  na : nat;
  nb : nat;
  complex_hamiltonian : bool;   (* h1e.dtype or eri.dtype is complex128 *)
  mol_given : bool;             (* fci.mol is not None *)
  ci0 : option (list rvec);
  nroots : nat;
  davidson_only : bool;
  pspace_size : Z;
  maxtime : option R;
  ecore : R
}.

(** The components of the tuples the drivers return, and (the last two)
    of the tuple [FCIBase.kernel] expects: the lists of per-restart
    projections and reduced Hamiltonians. *)
Inductive value : Type :=
| VFloat (x : R)
| VFloats (xs : rvec)
| VVector (c : rvec)
| VVectors (cs : list rvec)
| VComplexes (zs : cvec)
| VComplexVectors (zs : list cvec)
| VMatrices (ms : list cmat).

(** What the pspace block (lines 552-574 and, with the same text, 690-712)
    decides: a [return] from inside the [try], or the fall through to the
    Davidson iteration with the data its preconditioner gets. *)
Inductive stage : Type :=
| Shortcut (result : list value)
| Davidson (pw_pv : option (rvec * rmat)) (addr : list nat).

(** What [FCIBase.eig] hands back for a callable operator. *)
Inductive eig_result : Type :=
| OneRoot (e : R) (c : rvec)
| ManyRoots (es : rvec) (cs : list rvec).

Section Drivers.

Variable E : collaborators.

(** Lines 146-150. *)
Definition make_hdiag_size (a : arguments) : run nat :=
  if complex_hamiltonian a then Raise NotImplementedError
  else Ok (na a * nb a)%nat.

(** Lines 192-245: the two guards, then the selection. *)
Definition pspace (a : arguments) (np : Z) : run (list nat * rmat) :=
  if (63 <? norb a)%nat then Raise NotImplementedError
  else if complex_hamiltonian a then Raise NotImplementedError
  else Ok (pspace_select E (Z.to_nat np)).

(** [civec = numpy.empty(n); civec[addr] = col] *)
Definition scatter (n : nat) (addr : list nat) (col : rvec) : run rvec :=
  if Nat.eqb (length addr) (length col)
  then for_each (fun civec p =>
                   if (fst p <? n)%nat then Ok (set_nth civec (fst p) (snd p))
                   else Raise IndexError)
                (combine addr col) (repeat 0 n)
  else Raise ValueError.

(** the rows of [pv[:, :nroots].T] *)
Definition leading_columns (pv : rmat) (nroots : nat) : list rvec :=
  let ncols := match pv with [] => O | row :: _ => length row end in
  map (fun j => map (fun row => nth j row 0) pv) (range (Nat.min nroots ncols)).

Definition pspace_block (a : arguments) : run stage :=
  hdiag_size <- make_hdiag_size a ;;
  let nroots := Nat.min hdiag_size (nroots a) in
  match pspace a (Z.max (pspace_size a) (Z.of_nat nroots)) with
  | Raise NotImplementedError => Ok (Davidson None [O])
  | Raise e => Raise e
  | Halt h => Halt h
  | Ok (addr, h0) =>
      let pw_pv := if (0 <? pspace_size a)%Z then Some (eig_dense E h0) else None in
      if (pspace_size a >=? Z.of_nat (na a * nb a))%Z
         && (match ci0 a with None => true | Some _ => false end)
         && negb (davidson_only a)
      then
        match pw_pv with
        | None => (* pw[0] on None *) Raise TypeError
        | Some (pw, pv) =>
            if Nat.eqb (na a * nb a) 1 then
              pw0 <- getitem pw 0 ;;
              col <- column pv 0 ;;
              Ok (Shortcut [VFloat (pw0 + ecore a); VVector col])
            else if (1 <? nroots)%nat then
              let cols := leading_columns pv nroots in
              if Nat.eqb (length cols) nroots then
                civec <- map_run (scatter (na a * nb a) addr) cols ;;
                Ok (Shortcut [VFloats (map (fun x => x + ecore a) (firstn nroots pw));
                              VVectors civec])
              else Raise ValueError
            else
              pw0 <- getitem pw 0 ;;
              pw1 <- getitem pw 1 ;;
              if Rgt_dec (Rabs (pw0 - pw1)) 1e-12 then
                col <- column pv 0 ;;
                civec <- scatter (na a * nb a) addr col ;;
                Ok (Shortcut [VFloat (pw0 + ecore a); VVector civec])
              else Ok (Davidson pw_pv addr)
        end
      else Ok (Davidson pw_pv addr)
  end.

(** Lines 1110-1122, for the callable operator [hop]. *)
Definition FCIBase_eig (ci0 : option (list rvec)) (pw_pv : option (rvec * rmat))
  (addr : list nat) (nroots : nat) : run eig_result :=
  let '(es, cs) := davidson E ci0 pw_pv addr nroots in
  if Nat.eqb nroots 1 then
    e <- getitem es 0 ;;
    c <- getitem cs 0 ;;
    Ok (OneRoot e c)
  else Ok (ManyRoots es cs).

(** Lines 576-626: [kernel_ms1] past the pspace block. *)
Definition davidson_ms1 (a : arguments) (pw_pv : option (rvec * rmat)) (addr : list nat)
  : run (list value) :=
  let nroots := Nat.min (na a * nb a) (nroots a) in
  r <- FCIBase_eig (ci0 a) pw_pv addr nroots ;;
  match r with
  | ManyRoots es cs =>
      if (1 <? nroots)%nat
      then Ok [VFloats (map (fun x => x + ecore a) es); VVectors cs]
      else (* c.reshape on a list *) Raise AttributeError
  | OneRoot e c => Ok [VFloat (e + ecore a); VVector c]
  end.

(** Lines 491-626. *)
Definition kernel_ms1 (a : arguments) : run (list value) :=
  st <- pspace_block a ;;
  match st with
  | Shortcut result => Ok result
  | Davidson pw_pv addr => davidson_ms1 a pw_pv addr
  end.

(** Lines 782-788: the dipole operator of axis [i] applied to the ground
    state and normalised.  With a zero norm numpy fills the row with [nan]
    and goes on.  The driver normalises all three rows before the axis
    loop; the rows of the axes it skips only reach the console, so the
    model computes the row where the axis loop uses it. *)
Definition dipole_seed (c : rvec) (i : nat) : run rvec :=
  let mu := contract_1e_dip E i c in
  let nrm2 := norm mu in
  if Req_dec_T nrm2 0 then Halt NonFinite
  else Ok (map (fun x => x * (1.0 / nrm2)) mu).

(** The Python locals the axis loop leaves behind: those of the last axis it
    went through, if any, and the event log. *)
Definition axis_vars : Type := (option loop_state * list event)%type.

(** Lines 793-923: the body of [for i in range(3)]. *)
Definition axis_body (fuel : nat) (a : arguments) (e : R) (c : rvec)
  (vars : axis_vars) (i : nat) : run axis_vars :=
  if (i <? 2)%nat then Ok (fst vars, snd vars ++ [SkipLoop i])
  else
    mu <- dipole_seed c i ;;
    s <- propagate_axis E fuel (maxtime a) e mu (length c) i (snd vars) ;;
    Ok (Some s, log s).

(** Lines 793-925: the axis loop and the [return] after it. *)
Definition propagate_axes (fuel : nat) (a : arguments) (e : R) (c : rvec)
  : run (list value * list event) :=
  vars <- for_each (axis_body fuel a e c) (range 3) (None, []) ;;
  match fst vars with
  | None => Raise NameError
  | Some s => Ok ([VFloat e; VFloats (grid s); VComplexes (dipole_corr s)], snd vars)
  end.

(** Lines 714-925: [kernel_lanczos] past the pspace block. *)
Definition davidson_lanczos (fuel : nat) (a : arguments)
  (pw_pv : option (rvec * rmat)) (addr : list nat) : run (list value * list event) :=
  let nroots := Nat.min (na a * nb a) (nroots a) in
  r <- FCIBase_eig (ci0 a) pw_pv addr nroots ;;
  if mol_given a then
    match r with
    | ManyRoots _ _ => (* c.shape on a list *) Raise AttributeError
    | OneRoot e c => propagate_axes fuel a e c
    end
  else (* fci.mol.intor_symmetric on None *) Raise AttributeError.

(** Lines 629-925. *)
Definition kernel_lanczos (fuel : nat) (a : arguments) : run (list value * list event) :=
  st <- pspace_block a ;;
  match st with
  | Shortcut result => Ok (result, [])
  | Davidson pw_pv addr => davidson_lanczos fuel a pw_pv addr
  end.

(** [a, b, c, d, e = tup] *)
Definition unpack5 (tup : list value) : run (value * value * value * value * value) :=
  match tup with
  | [v1; v2; v3; v4; v5] => Ok (v1, v2, v3, v4, v5)
  | _ => Raise ValueError
  end.

(** Lines 1136-1149.  ([check_sanity] only warns.) *)
Definition FCIBase_kernel (fuel : nat) (a : arguments) : run (list value * list event) :=
  r <- kernel_lanczos fuel a ;;
  '(eci, lan_nodes, dipole_corr, list_htdiag, list_left) <- unpack5 (fst r) ;;
  Ok ([eci; lan_nodes; dipole_corr; list_htdiag; list_left], snd r).

End Drivers.

(* ================================================================== *)
(** ** The solver classes and [FCIBase.energy] *)

Module Classes.

Local Open Scope string_scope.

Record class : Type := mkClass {
  class_name : string;
  class_dict : list string     (* the names bound in the class body *)
}.

(** Lines 953-1236. *)
Definition FCIBase : class := mkClass "FCIBase"
  [ "max_cycle"; "max_space"; "conv_tol"; "conv_tol_residual"; "lindep";
    "level_shift"; "davidson_only"; "pspace_size"; "threads"; "lessio";
    "__init__"; "e_tot"; "nstates"; "dump_flags"; "absorb_h1e"; "make_hdiag";
    "pspace"; "contract_1e"; "contract_2e"; "eig"; "make_precond";
    "get_init_guess"; "kernel"; "energy"; "spin_square"; "make_rdm1s";
    "make_rdm1"; "make_rdm12s"; "make_rdm12"; "make_rdm2"; "trans_rdm1s";
    "trans_rdm1"; "trans_rdm12s"; "trans_rdm12"; "large_ci"; "contract_ss";
    "gen_linkstr" ].

(** Lines 1239-1244. *)
Definition FCISolver : class := mkClass "FCISolver"
  [ "transform_ci_for_orbital_rotation" ].

(** An object: the names in its own [__dict__] and the classes of its type
    in method-resolution order. *)
Record instance : Type := mkInstance {
  own : list string;
  mro : list class
}.

(** Lines 1031-1057: what [__init__] binds on the new object. *)
Definition init_names : list string :=
  [ "stdout"; "verbose"; "max_memory"; "mol"; "nroots"; "spin"; "orbsym";
    "wfnsym"; "converged"; "norb"; "nelec"; "eci"; "ci"; "_keys" ].

(** [FCISolver(mol)]; [StreamObject] is [lib.StreamObject], the base class
    defined outside this file. *)
Definition new_FCISolver (StreamObject : class) : instance :=
  mkInstance init_names [FCISolver; FCIBase; StreamObject].

(** Where [self.name] is found. *)
Inductive attribute : Type :=
| Own (name : string)
| Bound (owner : string) (name : string).

Definition defines (name : string) (names : list string) : bool :=
  existsb (String.eqb name) names.

Definition getattr (self : instance) (name : string) : run attribute :=
  if defines name (own self) then Ok (Own name)
  else match find (fun c => defines name (class_dict c)) (mro self) with
       | Some c => Ok (Bound (class_name c) name)
       | None => Raise AttributeError
       end.

(** The [nelec] argument: a total or a pair. *)
Inductive nelec_arg : Type :=
| Total (n : nat)
| Pair (neleca nelecb : nat).

(** One call of [energy(self, h1e, eri, fcivec, norb, nelec)]: the dtypes the
    guard of [absorb_h1e] looks at, the vector, and the code outside this
    file that the call runs into ([_unpack_nelec], the integral
    rearrangement inside [absorb_h1e], whatever an attribute found outside
    the two classes does when called). *)
Record energy_call : Type := mkEnergyCall {
  h1e_complex : bool;
  eri_complex : bool;
  nelec : nelec_arg;
  fcivec : rvec;
  unpack_nelec : nelec_arg -> run (nat * nat);
  absorb_arith : nat * nat -> run rvec;
  call_attribute : attribute -> rvec -> rvec -> run rvec
}.

(** Lines 176-190. *)
Definition absorb_h1e (x : energy_call) (nelec : nat * nat) : run rvec :=
  if h1e_complex x || eri_complex x then Raise NotImplementedError
  else absorb_arith x nelec.

(** Lines 1085-1088. *)
Definition FCIBase_absorb_h1e (x : energy_call) (nelec : nat * nat) : run rvec :=
  nelec' <- unpack_nelec x (Pair (fst nelec) (snd nelec)) ;;
  absorb_h1e x nelec'.

Definition rdot (a b : rvec) : run R :=
  if Nat.eqb (length a) (length b)
  then Ok (rsum (map (fun p => fst p * snd p) (combine a b)))
  else Raise ValueError.

(** Lines 1151-1157. *)
Definition FCIBase_energy (self : instance) (x : energy_call) : run R :=
  nelec <- unpack_nelec x (nelec x) ;;
  m <- getattr self "absorb_h1e" ;;
  h2e <- match m with
         | Bound "FCIBase" _ => FCIBase_absorb_h1e x nelec
         | _ => call_attribute x m [] (fcivec x)
         end ;;
  m' <- getattr self "contract_2e_complex" ;;
  ci1 <- call_attribute x m' h2e (fcivec x) ;;
  rdot (fcivec x) ci1.

End Classes.

(* ================================================================== *)
(** ** The specification's side *)

(** [T[:, j]], read as the specification's formula reads it. *)
Definition spec_column (T : cmat) (j : nat) : cvec := map (fun row => nth j row C0) T.

(** The adaptive time step as the specification writes it:
    [(factorial(m-1) / ‖w^(m-1) ⊙ T[:,m-1]‖)^(1/(m-1)) · thr^(0.5/(m-1))]
    with [thr = 1e-6], for eigenvalues [w] and eigenvectors [T]. *)
Definition t_lim_spec (w : rvec) (T : cmat) (m : nat) : R :=
  let weighted := map (fun p => Cscale (fst p ^ (m - 1)) (snd p))
                      (combine w (spec_column T (m - 1))) in
  Rpower (INR (fact (m - 1)) / cnorm weighted) (1 / INR (m - 1))
  * Rpower 1e-6 (0.5 / INR (m - 1)).

(** The first canonical basis vector of dimension [m]. *)
Definition e_1 (m : nat) : cvec :=
  match m with
  | O => []
  | S n => C1 :: repeat C0 n
  end.

Fixpoint nondecreasing (l : list R) : Prop :=
  match l with
  | x :: ((y :: _) as l') => x <= y /\ nondecreasing l'
  | _ => True
  end.

(** The events that belong to axis [i]: a tridiagonalisation for it, or one
    of its three files. *)
Definition axis_event (i : nat) (ev : event) : Prop :=
  match ev with
  | SkipLoop _ => False
  | Tridiagonalize j => j = i
  | Save name _ => name = ("dip_" ++ str i ++ ".npy")%string
                   \/ name = ("Ht_" ++ str i ++ ".npy")%string
                   \/ name = ("lan_nodes_" ++ str i ++ ".txt")%string
  end.

(** The tridiagonal matrix the specification describes, entry by entry. *)
Definition tridiagonal_entry {K : Type} (zero : K) (sub : K -> K) (alpha beta : list K)
  (r c : nat) : K :=
  if Nat.eqb r c then nth r alpha zero
  else if Nat.eqb c (r + 1) then nth r beta zero
  else if Nat.eqb r (c + 1) then sub (nth c beta zero)
  else zero.

(** What the assembly of [Ht] has written after the passes [p < a] of its
    loop, and what it has written at the end: the diagonal, and the
    off-diagonal pair of [p] only for [p + 2 < m]. *)
Definition assembled_upto {K : Type} (zero : K) (sub : K -> K) (alpha beta : list K)
  (a r c : nat) : K :=
  if Nat.eqb r c then (if Nat.ltb r a then nth r alpha zero else zero)
  else if Nat.eqb c (r + 1) && Nat.ltb (r + 2) (length alpha) && Nat.ltb r a
       then nth r beta zero
  else if Nat.eqb r (c + 1) && Nat.ltb (c + 2) (length alpha) && Nat.ltb c a
       then sub (nth c beta zero)
  else zero.

Definition assembled_entry {K : Type} (zero : K) (sub : K -> K) (alpha beta : list K)
  (r c : nat) : K :=
  if Nat.eqb r c then nth r alpha zero
  else if Nat.eqb c (r + 1) && Nat.ltb (r + 2) (length alpha) then nth r beta zero
  else if Nat.eqb r (c + 1) && Nat.ltb (c + 2) (length alpha) then sub (nth c beta zero)
  else zero.

(** A square array of side [m]. *)
Definition square {K : Type} (m : nat) (M : list (list K)) : Prop :=
  length M = m /\ forall r, (r < m)%nat -> length (nth r M []) = m.

(** The states the propagation loop of an axis passes through at the head
    of [while]: the one the first restart leaves, and every one a further
    pass produces from a state whose clock is still below [maxtime]. *)
Inductive loop_head (E : collaborators) (maxtime e : R) (mu : rvec) (nconf i : nat)
  (s0 : loop_state) : loop_state -> Prop :=
| head_first : loop_head E maxtime e mu nconf i s0 s0
| head_next (s s' : loop_state) :
    loop_head E maxtime e mu nconf i s0 s ->
    t s < maxtime ->
    loop_body E e mu nconf i s = Ok s' ->
    loop_head E maxtime e mu nconf i s0 s'.

(** What the time grid looks like at the head of the loop: it ends with the
    clock, the entry before the clock is one step back, and everything
    before the clock is below [maxtime]. *)
Definition grid_shape (maxtime : R) (s : loop_state) : Prop :=
  exists g prev,
    grid s = g ++ [prev; t s]
    /\ Forall (fun x => x < maxtime) (g ++ [prev])
    /\ nondecreasing (grid s)
    /\ t s = prev + t_lim s
    /\ 0 < t_lim s.

(* ================================================================== *)
(** ** A two-level system

    The Hamiltonian [[-7, 24], [24, 7]] has the eigenvalues -25 and 25 with
    the eigenvectors (4/5, -3/5) and (3/5, 4/5).  Its dipole-excited state
    along the third axis is taken to be a multiple of the first basis
    state, and to vanish along the other two.  The Lanczos recurrence from a
    seed proportional to the first basis state gives [alpha = [-7, 7]] and
    [beta = [24]]; the collaborators below return what the libraries
    compute for these inputs. *)

Definition two_level_H (c : rvec) : rvec :=
  match c with
  | [x; y] => [-7 * x + 24 * y; 24 * x + 7 * y]
  | _ => []
  end.

Definition two_level : collaborators :=
  mkCollaborators
    two_level_H
    (fun i _ => if Nat.eqb i 2 then [2; 0] else [0; 0])
    (fun _ x0 => match x0 with
                 | [x; y] => mkKrylov [[x; y]; [y; x]] [-7; 7] [24]
                 | _ => mkKrylov [] [] []
                 end)
    (fun _ x0 => match x0 with
                 | [x; y] => mkKrylov [[x; y]; [y; x]] [RtoC (-7); RtoC 7] [RtoC 24]
                 | _ => mkKrylov [] [] []
                 end)
    (fun _ _ => ([-25; 25], [[4/5; 3/5]; [-3/5; 4/5]]))
    (fun Ht => ([-7; 7], [[C1; C0]; [C0; C1]]))
    (fun M => match M with
              | [[z1; _]; [_; z2]] => [[Cexp z1; C0]; [C0; Cexp z2]]
              | _ => M
              end)
    (fun _ => ([0; 1]%nat, [[-7; 24]; [24; 7]]))
    (fun _ => ([-25; 25], [[4/5; 3/5]; [-3/5; 4/5]]))
    (fun _ _ _ _ => ([-25], [[4/5; -3/5]])).

Definition two_level_call (maxtime : option R) : arguments :=
  mkArguments 2 2 1 false true None 1 true 400 maxtime 0.

(** The same system with a degenerate pair of pspace eigenvalues. *)
Definition degenerate : collaborators :=
  mkCollaborators
    (contract_2e_h2e two_level) (contract_1e_dip two_level)
    (lanczos_real two_level) (lanczos_complex two_level)
    (eigh_tridiagonal two_level) (eigh two_level) (expm two_level)
    (fun _ => ([0; 1]%nat, [[3; 0]; [0; 3]]))
    (fun _ => ([3; 3], [[1; 0]; [0; 1]]))
    (davidson two_level).

Definition degenerate_call : arguments :=
  mkArguments 2 2 1 false true None 1 false 400 (Some 1) 0.

(** [lib.StreamObject] as far as its names matter here. *)
Definition StreamObject : Classes.class :=
  Classes.mkClass "StreamObject"
    [ "verbose"; "stdout"; "run"; "set"; "apply"; "kernel"; "pre_kernel";
      "post_kernel"; "check_sanity"; "view"; "add_keys"; "copy" ]%string.

(** A later pass whose recurrence has a complex off-diagonal coefficient:
    [alpha = [10, 17, -1]], [beta = [12j, 0]].  The assembled [Ht] has the
    eigenvalues -1, 1 and 26; the eigenvector of 26 is (3/5, -4j/5, 0). *)
Definition complex_pass_T : cmat :=
  [ [C0; RtoC (4/5); RtoC (3/5)];
    [C0; mkC 0 (3/5); mkC 0 (-4/5)];
    [C1; C0; C0] ].

Definition complex_pass : collaborators :=
  mkCollaborators
    (contract_2e_h2e two_level) (contract_1e_dip two_level)
    (lanczos_real two_level)
    (fun _ x0 => mkKrylov [[C1; C0; C0]; [C0; C1; C0]; [C0; C0; C1]]
                          [RtoC 10; RtoC 17; RtoC (-1)] [mkC 0 12; C0])
    (eigh_tridiagonal two_level)
    (fun _ => ([-1; 1; 26], complex_pass_T))
    (expm two_level) (pspace_select two_level) (eig_dense two_level)
    (davidson two_level).

(** Two calls of [energy] on the ground state of the two-level system: one
    with real integrals, one with a complex128 [h1e]. *)
Definition unpack_pair (n : Classes.nelec_arg) : run (nat * nat) :=
  match n with
  | Classes.Total n => Ok ((n - n / 2)%nat, (n / 2)%nat)
  | Classes.Pair neleca nelecb => Ok (neleca, nelecb)
  end.

Definition real_call : Classes.energy_call :=
  Classes.mkEnergyCall false false (Classes.Pair 1 0) [4/5; -3/5]
    unpack_pair (fun _ => Ok [-7; 24; 24; 7]) (fun _ _ _ => Raise TypeError).

Definition complex_call : Classes.energy_call :=
  Classes.mkEnergyCall true false (Classes.Pair 1 0) [4/5; -3/5]
    unpack_pair (fun _ => Ok [-7; 24; 24; 7]) (fun _ _ _ => Raise TypeError).

(* ================================================================== *)
(** ** Further parts of the file *)

(** *** The preconditioner: [FCIBase.make_precond] and
    [make_pspace_precond] *)

(** Lines 1124-1130 and 949-950: which preconditioner the Davidson iteration
    gets, with the data it is built from.  ([pspaceig] and [pspaceci] are
    both [None] or both arrays.) *)
Inductive preconditioner : Type :=
| DiagPrecond (hdiag : rvec) (level_shift : R)
    (* lib.make_diag_precond(hdiag, level_shift) *)
| PspacePrecond (hdiag pspaceig : rvec) (pspaceci : rmat) (addr : list nat)
    (level_shift : R).

Definition make_precond (level_shift : R) (hdiag : rvec)
  (pw_pv : option (rvec * rmat)) (addr : list nat) : preconditioner :=
  match pw_pv with
  | None => DiagPrecond hdiag level_shift
  | Some (pspaceig, pspaceci) => PspacePrecond hdiag pspaceig pspaceci addr level_shift
  end.

(** [c * v] for a scalar [c] *)
Definition scale (c : R) (v : rvec) : rvec := map (fun x => c * x) v.

(** [a - b] and [a / b] on two 1-D arrays, with numpy's broadcasting of a
    length-one operand (as [mul_broadcast]). *)
Definition zip_broadcast (f : R -> R -> R) (a b : rvec) : run rvec :=
  if Nat.eqb (length a) (length b) then Ok (map (fun p => f (fst p) (snd p)) (combine a b))
  else match a, b with
       | [x], _ => Ok (map (fun y => f x y) b)
       | _, [y] => Ok (map (fun x => f x y) a)
       | _, _ => Raise ValueError
       end.

(** [x[addr]] for an index array [addr] *)
Definition gather (x : rvec) (addr : list nat) : run rvec := map_run (getitem x) addr.

(** [x[addr] = vals] *)
Definition setitems (x : rvec) (addr : list nat) (vals : rvec) : run rvec :=
  if Nat.eqb (length addr) (length vals)
  then for_each (fun x p =>
                   if (fst p <? length x)%nat then Ok (set_nth x (fst p) (snd p))
                   else Raise IndexError)
                (combine addr vals) x
  else Raise ValueError.

(** [numpy.dot(M, v)] for a 2-D [M] and a 1-D [v] *)
Definition matvec (M : rmat) (v : rvec) : run rvec :=
  map_run (fun row => Classes.rdot row v) M.

(** Lines 932-933: [hdiaginv = 1/(hdiag - (e0-level_shift))] followed by
    [hdiaginv[abs(hdiaginv)>1e8] = 1e8].  A zero denominator gives an
    infinite reciprocal, which the second line replaces like any other
    entry above the cap. *)
Definition clamped_reciprocal (den : R) : R :=
  if Req_dec_T den 0 then 1e8
  else if Rgt_dec (Rabs (1 / den)) 1e8 then 1e8
  else 1 / den.

Definition hdiaginv (hdiag : rvec) (shift : R) : rvec :=
  map (fun h => clamped_reciprocal (h - shift)) hdiag.

(** Line 931: [numpy.dot(pspaceci/(pspaceig-(e0-level_shift)), pspaceci.T)].
    The quotient is taken row by row; a division by zero leaves the finite
    numbers. *)
Definition h0e0inv (pspaceig : rvec) (pspaceci : rmat) (shift : R) : run rmat :=
  let dens := map (fun w => w - shift) pspaceig in
  scaled <- map_run (fun row => zip_broadcast Rdiv row dens) pspaceci ;;
  if existsb (fun x => if Req_dec_T x 0 then true else false) dens
     && existsb (fun row => negb (Nat.eqb (length row) 0)) scaled
  then Halt NonFinite
  else map_run (fun a => map_run (fun b => Classes.rdot a b) pspaceci) scaled.

(** Lines 927-947: [make_pspace_precond(hdiag, pspaceig, pspaceci, addr,
    level_shift)] is the function [precond(r, e0, x0)]. *)
Definition make_pspace_precond (hdiag pspaceig : rvec) (pspaceci : rmat) (addr : list nat)
  (level_shift : R) (r : rvec) (e0 : R) (x0 : rvec) : run rvec :=
  let shift := e0 - level_shift in
  h0e0inv <- h0e0inv pspaceig pspaceci shift ;;
  let hdiaginv := hdiaginv hdiag shift in
  h0x0 <- mul_broadcast x0 hdiaginv ;;
  x0_addr <- gather x0 addr ;;
  v <- matvec h0e0inv x0_addr ;;
  h0x0 <- setitems h0x0 addr v ;;
  h0r <- mul_broadcast r hdiaginv ;;
  r_addr <- gather r addr ;;
  v' <- matvec h0e0inv r_addr ;;
  h0r <- setitems h0r addr v' ;;
  num <- Classes.rdot x0 h0r ;;
  den <- Classes.rdot x0 h0x0 ;;
  if Req_dec_T den 0 then Halt NonFinite
  else
    let e1 := num / den in
    x1 <- zip_broadcast Rminus r (scale e1 x0) ;;
    (* x1 *= hdiaginv works in place: the product must have the shape of x1 *)
    y <- mul_broadcast x1 hdiaginv ;;
    if Nat.eqb (length y) (length x1) then Ok y else Raise ValueError.

(** *** The initial guess: [_get_init_guess] *)

(** [numpy.argpartition(a, kth)]: the bound check on [kth] is numpy's (an
    empty array is not checked), the permutation itself is the library's
    and enters as [arg_partition]. *)
Definition argpartition (arg_partition : rvec -> nat -> list nat) (a : rvec) (kth : Z)
  : run (list nat) :=
  let n := Z.of_nat (length a) in
  let kth := (if kth <? 0 then kth + n else kth)%Z in
  if negb (Nat.eqb (length a) 0) && ((kth <? 0) || (n <=? kth))%Z then Raise ValueError
  else Ok (arg_partition a (Z.to_nat kth)).

(** What numpy documents about the result: it is a permutation of the
    indices, and the entry it puts at position [kth] has no larger entry
    before it and no smaller entry after it. *)
Definition index_permutation (n : nat) (p : list nat) : Prop :=
  length p = n /\ NoDup p /\ Forall (fun a => (a < n)%nat) p.

Definition partitioned (a : rvec) (kth : nat) (p : list nat) : Prop :=
  forall i j, (i <= kth)%nat -> (kth <= j)%nat -> (j < length p)%nat ->
              nth (nth i p O) a 0 <= nth (nth j p O) a 0.

(** [x = numpy.zeros(n); x[addr] = 1] *)
Definition unit_vector (n addr : nat) : run rvec :=
  if (addr <? n)%nat then Ok (set_nth (repeat 0 n) addr 1) else Raise IndexError.

(** Lines 459-476.  (The [argsort] fallback is for a numpy without
    [argpartition].) *)
Definition _get_init_guess (arg_partition : rvec -> nat -> list nat)
  (na nb nroots : nat) (hdiag : rvec) : run (list rvec) :=
  addrs <- argpartition arg_partition hdiag (Z.of_nat nroots - 1) ;;
  map_run (unit_vector (na * nb)) (firstn nroots addrs).

(** *** The one-body absorption: the arithmetic of [absorb_h1e] *)

(** A full [norb x norb] and [norb x norb x norb x norb] array, read through
    its indices. *)
Definition array2 : Type := nat -> nat -> R.
Definition array4 : Type := nat -> nat -> nat -> nat -> R.

(** [numpy.einsum('jiik->jk', h2e)] *)
Definition einsum_jiik_jk (norb : nat) (h2e : array4) : array2 :=
  fun j k => rsum (map (fun i => h2e j i i k) (range norb)).

(** [h2e[k,k,:,:] += f1e] and [h2e[:,:,k,k] += f1e] *)
Definition add_left_block (k : nat) (f1e : array2) (h2e : array4) : array4 :=
  fun p q r s => if Nat.eqb p k && Nat.eqb q k then h2e p q r s + f1e r s
                 else h2e p q r s.

Definition add_right_block (k : nat) (f1e : array2) (h2e : array4) : array4 :=
  fun p q r s => if Nat.eqb r k && Nat.eqb s k then h2e p q r s + f1e p q
                 else h2e p q r s.

(** Lines 182-190, past the guard, on the unpacked integrals
    [h2e = ao2mo.restore(1, eri.copy(), norb)] and up to the final
    [ao2mo.restore(4, ., norb)]; [nelec] is the total electron number. *)
Definition absorb_h1e_f1e (h1e : array2) (h2e : array4) (norb nelec : nat) : array2 :=
  let f1e := fun j k => h1e j k - einsum_jiik_jk norb h2e j k * 0.5 in
  fun j k => f1e j k * (1.0 / (INR nelec + 1e-100)).

Definition absorb_h1e_array (h1e : array2) (h2e : array4) (norb nelec : nat) (fac : R)
  : array4 :=
  let f1e := absorb_h1e_f1e h1e h2e norb nelec in
  let h2e := fold_left (fun h k => add_right_block k f1e (add_left_block k f1e h))
                       (range norb) h2e in
  fun p q r s => h2e p q r s * fac.

(** *** A one-determinant system

    One orbital holding one electron: the pspace Hamiltonian is the number
    [3], and there is nothing to iterate on. *)

Definition single_determinant : collaborators :=
  mkCollaborators
    (contract_2e_h2e two_level) (contract_1e_dip two_level)
    (lanczos_real two_level) (lanczos_complex two_level)
    (eigh_tridiagonal two_level) (eigh two_level) (expm two_level)
    (fun _ => ([0]%nat, [[3]]))
    (fun _ => ([3], [[1]]))
    (fun _ _ _ _ => ([3], [[1]])).

(** A call without a molecule and without [maxtime], with [ecore = 5]. *)
Definition single_determinant_call : arguments :=
  mkArguments 1 1 1 false false None 1 false 400 None 5.

(** *** A dipole state that is an eigenstate

    The two-level system again, with a dipole operator that maps its ground
    state (4/5, -3/5) onto itself: the Lanczos recurrence stops after one
    vector, with [alpha = [-25]] and no [beta]. *)

Definition eigenstate_seed : collaborators :=
  mkCollaborators
    two_level_H
    (fun _ c => c)
    (fun _ x0 => mkKrylov [x0] [-25] [])
    (fun _ x0 => mkKrylov [x0] [RtoC (-25)] [])
    (fun d _ => (d, [[1]]))
    (fun Ht => ([-25], [[C1]]))
    (expm two_level)
    (pspace_select two_level) (eig_dense two_level) (davidson two_level).

(** *** The first sample in binary64

    Lines 786-788 and 841-858 as numpy computes them, on IEEE binary64
    numbers.  [numpy.dot] and [numpy.linalg.norm] leave the order of their
    sums to the BLAS; the sums are taken left to right here, and the
    vectors below have at most one nonzero product per sum, for which no
    order matters. *)

Module Binary64.

Import PrimFloat.
Local Open Scope float_scope.

Definition fvec : Type := list float.
(** a complex128 number: real and imaginary part *)
Definition complex128 : Type := (float * float)%type.

(** [numpy.dot(a, b)] on two float64 arrays *)
Definition dot (a b : fvec) : float :=
  fold_left (fun s p => s + fst p * snd p) (combine a b) 0.

(** [numpy.linalg.norm(v)] is [sqrt(dot(v, v))] *)
Definition norm (v : fvec) : float := sqrt (dot v v).

(** Lines 786-788: [nrm2 = numpy.linalg.norm(mu_0[i]); mu_0[i] *= 1.0/nrm2] *)
Definition dipole_seed (mu : fvec) : fvec :=
  let nrm2 := norm mu in
  map (fun x => x * (1.0 / nrm2)) mu.

Definition cadd (a b : complex128) : complex128 := (fst a + fst b, snd a + snd b).
Definition cmul (a b : complex128) : complex128 :=
  (fst a * fst b - snd a * snd b, fst a * snd b + snd a * fst b).

(** [numpy.dot(a, b)] on two complex128 arrays *)
Definition cdot (a b : list complex128) : complex128 :=
  fold_left (fun s p => cadd s (cmul (fst p) (snd p))) (combine a b) (0, 0).

(** Lines 849-852: [Amu0[k] = numpy.dot(A[k], mu_0[i])], stored in a complex
    array *)
Definition project_dipole (A : list fvec) (mu : fvec) : list complex128 :=
  map (fun A_tmp => (dot A_tmp mu, 0)) A.

(** Lines 841-842: [d = numpy.zeros((len_tdiag), complex);
    d[0] = 1.0 + 1j*0.0] *)
Definition first_basis_vector (len_tdiag : nat) : list complex128 :=
  match len_tdiag with
  | O => []
  | S n => cadd (1.0, 0) (cmul (0, 1) (0.0, 0)) :: repeat (0, 0) n
  end.

(** Line 858: [numpy.dot(Amu0, d)*numpy.exp(1j*e*t)]; [phase] is the value
    of [numpy.exp(1j*e*t)], which at [t = 0] is [1+0j] for every finite
    [e]. *)
Definition sample (A : list fvec) (mu : fvec) (phase : complex128) : complex128 :=
  let Amu0 := project_dipole A mu in
  let d := first_basis_vector (length A) in
  cmul (cdot Amu0 d) phase.


Definition zero : float := 0.

End Binary64.

(* ================================================================== *)
(** * Properties *)

(** ** Reasoning about runs *)

Lemma bind_Ok {A B : Type} (c : run A) (k : A -> run B) (b : B) :
  bind c k = Ok b -> exists a, c = Ok a /\ k a = Ok b.
Proof. destruct c; simpl; intros H; try discriminate; eauto. Qed.

Ltac bind_inv H :=
  let a := fresh "x" in
  let Ha := fresh "Hx" in
  apply bind_Ok in H; destruct H as (a & Ha & H).

Tactic Notation "bind_name" hyp(H) "as" ident(a) ident(Ha) :=
  apply bind_Ok in H; destruct H as (a & Ha & H).

Lemma map_run_length {A B : Type} (f : A -> run B) (xs : list A) (ys : list B) :
  map_run f xs = Ok ys -> length ys = length xs.
Proof.
  revert ys; induction xs as [|x xs IH]; simpl; intros ys H.
  - injection H as <-; reflexivity.
  - bind_inv H. bind_inv H. injection H as <-. simpl. f_equal. auto.
Qed.

(** ** The propagation loop: what every pass preserves *)

Section LoopFacts.

Variable E : collaborators.
Variables (maxtime e : R) (mu : rvec) (nconf i : nat).

(** The shape of a successful pass: the new state keeps [d], moves the
    clock by the new step, and appends one entry to each record. *)
Lemma loop_body_Ok (s s' : loop_state) :
  loop_body E e mu nconf i s = Ok s' ->
  d s' = d s
  /\ t s' = t s + t_lim s'
  /\ grid s' = grid s ++ [t s']
  /\ (exists x, dipole_corr s' = dipole_corr s ++ [x])
  /\ (exists Amu0, list_left s' = list_left s ++ [Amu0])
  /\ list_htdiag s' = list_htdiag s ++ [Ht s']
  /\ log s' = log s ++ [Tridiagonalize i]
  /\ refresh s' = (refresh s + 1)%nat.
Proof.
  unfold loop_body. intros H.
  bind_inv H. bind_inv H. bind_inv H. bind_inv H. bind_inv H. bind_inv H.
  injection H as <-. simpl. repeat split; eauto.
Qed.

(** An invariant of the loop holds when the loop is left, and the loop is
    left only when the clock has reached [maxtime]. *)
Lemma while_loop_invariant (P : loop_state -> Prop) :
  (forall s s', P s -> t s < maxtime -> loop_body E e mu nconf i s = Ok s' -> P s') ->
  forall fuel s0 s, P s0 -> while_loop E fuel maxtime e mu nconf i s0 = Ok s ->
                    P s /\ maxtime <= t s.
Proof.
  intros Hstep. induction fuel as [|fuel IH]; simpl; intros s0 s HP H.
  - destruct (Rlt_dec (t s0) maxtime) as [Hlt|Hge]; [discriminate|].
    injection H as <-. split; [assumption|lra].
  - destruct (Rlt_dec (t s0) maxtime) as [Hlt|Hge].
    + bind_inv H. eapply IH; [|exact H]. eapply Hstep; eauto.
    + injection H as <-. split; [assumption|lra].
Qed.

End LoopFacts.

Lemma first_restart_log E e mu i log0 s :
  first_restart E e mu i log0 = Ok s -> log s = log0 ++ [Tridiagonalize i].
Proof.
  unfold first_restart. intros H.
  bind_inv H. bind_inv H. bind_inv H. bind_inv H. bind_inv H.
  injection H as <-. reflexivity.
Qed.

Lemma propagate_axis_log E fuel maxtime e mu nconf i log0 s :
  propagate_axis E fuel maxtime e mu nconf i log0 = Ok s ->
  exists evs, log s = log0 ++ evs /\ Forall (axis_event i) evs.
Proof.
  unfold propagate_axis. intros H.
  bind_inv H. bind_inv H. injection H as <-. simpl.
  destruct maxtime as [mt|]; [|discriminate].
  apply first_restart_log in Hx.
  apply (while_loop_invariant E mt e mu nconf i
           (fun s => exists evs, log s = log0 ++ evs /\ Forall (axis_event i) evs))
    in Hx0.
  - destruct Hx0 as [(evs & Hlog & Hall) _].
    exists (evs ++ save_artifacts i x0). rewrite Hlog, app_assoc. split; [reflexivity|].
    apply Forall_app. split; [assumption|].
    unfold save_artifacts.
    repeat (apply Forall_cons; [simpl; auto|]). apply Forall_nil.
  - intros s1 s2 (evs & Hlog & Hall) _ Hbody.
    apply loop_body_Ok in Hbody.
    destruct Hbody as (_ & _ & _ & _ & _ & _ & Hl & _).
    exists (evs ++ [Tridiagonalize i]). rewrite Hl, Hlog, app_assoc. split; [reflexivity|].
    apply Forall_app. split; [assumption|]. repeat constructor.
  - exists [Tridiagonalize i]. split; [assumption|]. repeat constructor.
Qed.

(** The fuel bound of the model is harmless. *)
Section Fuel.

Variable E : collaborators.
Variables (maxtime e : R) (mu : rvec) (nconf i : nat).

(** More fuel does not change the outcome of a loop that was left. *)
Lemma while_loop_more_fuel (fuel : nat) (s0 s : loop_state) :
  while_loop E fuel maxtime e mu nconf i s0 = Ok s ->
  while_loop E (S fuel) maxtime e mu nconf i s0 = Ok s.
Proof.
  revert s0. induction fuel as [|fuel IH]; intros s0 H.
  - simpl in *. destruct (Rlt_dec (t s0) maxtime); [discriminate|assumption].
  - change (while_loop E (S fuel) maxtime e mu nconf i s0)
      with (if Rlt_dec (t s0) maxtime
            then s' <- loop_body E e mu nconf i s0 ;;
                 while_loop E fuel maxtime e mu nconf i s'
            else Ok s0) in H.
    change (while_loop E (S (S fuel)) maxtime e mu nconf i s0)
      with (if Rlt_dec (t s0) maxtime
            then s' <- loop_body E e mu nconf i s0 ;;
                 while_loop E (S fuel) maxtime e mu nconf i s'
            else Ok s0).
    destruct (Rlt_dec (t s0) maxtime); [|assumption].
    bind_name H as s1 H1. rewrite H1. cbn [bind]. apply IH. assumption.
Qed.

(** The loop is left after finitely many passes when every pass from a
    state satisfying [P] succeeds, keeps [P] and moves the clock by at
    least [step > 0]. *)
Lemma while_loop_enough_fuel (P : loop_state -> Prop) (step : R) :
  0 < step ->
  (forall s, P s -> t s < maxtime ->
     exists s', loop_body E e mu nconf i s = Ok s' /\ P s' /\ t s + step <= t s') ->
  forall n s0, P s0 -> maxtime - t s0 <= INR n * step ->
    exists s, while_loop E n maxtime e mu nconf i s0 = Ok s.
Proof.
  intros Hstep Hpass. induction n as [|n IH]; intros s0 HP Hdist.
  - simpl in *. destruct (Rlt_dec (t s0) maxtime) as [Hlt|_]; [lra|eauto].
  - change (while_loop E (S n) maxtime e mu nconf i s0)
      with (if Rlt_dec (t s0) maxtime
            then s' <- loop_body E e mu nconf i s0 ;;
                 while_loop E n maxtime e mu nconf i s'
            else Ok s0).
    destruct (Rlt_dec (t s0) maxtime) as [Hlt|_]; [|eauto].
    destruct (Hpass s0 HP Hlt) as (s1 & -> & HP1 & Hclock). cbn [bind].
    apply IH; [assumption|]. rewrite S_INR in Hdist. lra.
Qed.

End Fuel.

Lemma propagate_axes_eq (E : collaborators) (fuel : nat) (a : arguments)
  (e : R) (c : rvec) :
  propagate_axes E fuel a e c =
    (mu <- dipole_seed E c 2 ;;
     s <- propagate_axis E fuel (maxtime a) e mu (length c) 2 [SkipLoop 0; SkipLoop 1] ;;
     Ok ([VFloat e; VFloats (grid s); VComplexes (dipole_corr s)], log s)).
Proof.
  unfold propagate_axes, range. simpl. unfold axis_body. simpl.
  destruct (dipole_seed E c 2) as [mu| |]; simpl; try reflexivity.
  destruct (propagate_axis E fuel (maxtime a) e mu (length c) 2 _) as [s| |];
    simpl; reflexivity.
Qed.

(** ** The time step *)

Lemma Rpower_pos (x y : R) : 0 < Rpower x y.
Proof. unfold Rpower. apply exp_pos. Qed.

Lemma time_limit_pos (T : rmat) (v : rvec) (thr : R) (m : nat) (x : R) :
  time_limit T v thr m = Ok x -> 0 < x.
Proof.
  unfold time_limit. destruct m as [|k]; intros H.
  - bind_inv H. bind_inv H. discriminate.
  - bind_inv H. bind_inv H. destruct k as [|k]; [discriminate|].
    destruct (Req_dec_T _ 0); [discriminate|].
    injection H as <-. apply Rmult_lt_0_compat; apply Rpower_pos.
Qed.

Lemma restart_real_t_lim_pos E mu r : restart_real E mu = Ok r -> 0 < r_t_lim r.
Proof.
  unfold restart_real. intros H. bind_inv H.
  destruct (eigh_tridiagonal E _ _) as [w T]. bind_inv H.
  injection H as <-. simpl. eapply time_limit_pos; eauto.
Qed.

Lemma restart_complex_t_lim_pos E v r : restart_complex E v = Ok r -> 0 < r_t_lim r.
Proof.
  unfold restart_complex. intros H. bind_inv H.
  destruct (eigh E _) as [w T]. bind_inv H.
  injection H as <-. simpl. eapply time_limit_pos; eauto.
Qed.

(** The shape of the state the first restart leaves. *)
Lemma first_restart_Ok E e mu i log0 s :
  first_restart E e mu i log0 = Ok s ->
  exists r Amu0 x,
    restart_real E mu = Ok r
    /\ first_basis_vector (r_len_tdiag r) = Ok (d s)
    /\ project_dipole (r_A r) (r_len_tdiag r) mu = Ok Amu0
    /\ sample Amu0 (d s) e 0 = Ok x
    /\ len_tdiag s = r_len_tdiag r
    /\ t_lim s = r_t_lim r
    /\ t s = 0 + r_t_lim r
    /\ grid s = [0; t s]
    /\ dipole_corr s = [x].
Proof.
  unfold first_restart. intros H.
  bind_inv H. bind_inv H. bind_inv H. bind_inv H. bind_inv H.
  injection H as <-. simpl. exists x, x2, x3. repeat split; assumption.
Qed.

Lemma loop_body_restart E e mu nconf i s s' :
  loop_body E e mu nconf i s = Ok s' ->
  exists d_next fcivec r,
    einsum_ij_j (U s) (d s) = Ok d_next
    /\ reconstruct nconf (A s) (len_tdiag s) d_next = Ok fcivec
    /\ restart_complex E fcivec = Ok r
    /\ len_tdiag s' = r_len_tdiag r
    /\ Ht s' = r_Ht r
    /\ t_lim s' = r_t_lim r.
Proof.
  unfold loop_body. intros H.
  bind_inv H. bind_inv H. bind_inv H. bind_inv H. bind_inv H. bind_inv H.
  injection H as <-. simpl. exists x, x0, x1. repeat split; assumption.
Qed.

Lemma loop_body_t_lim_pos E e mu nconf i s s' :
  loop_body E e mu nconf i s = Ok s' -> 0 < t_lim s'.
Proof.
  intros H. apply loop_body_restart in H.
  destruct H as (dn & fc & r & _ & _ & Hr & _ & _ & ->).
  eapply restart_complex_t_lim_pos; eauto.
Qed.

(** ** The assembly of the reduced Hamiltonian *)

Lemma length_set_nth {K : Type} (xs : list K) (i : nat) (x : K) :
  length (set_nth xs i x) = length xs.
Proof.
  revert i; induction xs as [|y xs IH]; intros [|i]; simpl; auto.
Qed.

Lemma nth_set_nth {K : Type} (xs : list K) (i j : nat) (x d : K) :
  (i < length xs)%nat ->
  nth j (set_nth xs i x) d = if Nat.eqb j i then x else nth j xs d.
Proof.
  revert i j; induction xs as [|y xs IH]; intros [|i] [|j] Hi; simpl in *;
    try lia; auto.
  apply IH. lia.
Qed.

Lemma setitem2_square {K : Type} (zero : K) (m : nat) (M : list (list K))
  (r c : nat) (x : K) :
  square m M -> (r < m)%nat -> (c < m)%nat ->
  exists M', setitem2 M r c x = Ok M'
    /\ square m M'
    /\ forall r' c', nth c' (nth r' M' []) zero
                     = if Nat.eqb r' r && Nat.eqb c' c then x
                       else nth c' (nth r' M []) zero.
Proof.
  intros [HM Hrows] Hr Hc. unfold setitem2.
  assert (Hnth : nth_error M r = Some (nth r M [])).
  { apply nth_error_nth'. lia. }
  rewrite Hnth.
  assert (Hlen : length (nth r M []) = m) by auto.
  replace (c <? length (nth r M []))%nat with true
    by (symmetry; apply Nat.ltb_lt; lia).
  eexists. split; [reflexivity|]. split.
  - split; [rewrite length_set_nth; assumption|].
    intros r' Hr'. rewrite nth_set_nth by lia.
    destruct (Nat.eqb_spec r' r); [rewrite length_set_nth; assumption|auto].
  - intros r' c'. rewrite nth_set_nth by lia.
    destruct (Nat.eqb_spec r' r) as [->|]; simpl; [|reflexivity].
    rewrite nth_set_nth by lia. reflexivity.
Qed.

Lemma zeros2_square {K : Type} (zero : K) (m : nat) :
  square m (zeros2 zero m)
  /\ forall r c, nth c (nth r (zeros2 zero m) []) zero = zero.
Proof.
  unfold zeros2. split.
  - split; [apply repeat_length|].
    intros r Hr. rewrite nth_repeat_lt by assumption. apply repeat_length.
  - intros r c. destruct (Nat.lt_ge_cases r m) as [Hr|Hr].
    + rewrite nth_repeat_lt by assumption.
      destruct (Nat.lt_ge_cases c m) as [Hc|Hc].
      * apply nth_repeat_lt; assumption.
      * apply nth_overflow. rewrite repeat_length. assumption.
    + rewrite (nth_overflow (repeat _ _)) by (rewrite repeat_length; assumption).
      destruct c; reflexivity.
Qed.

Ltac nat_cases :=
  repeat match goal with
         | |- context [Nat.eqb ?x ?y] => destruct (Nat.eqb_spec x y)
         | |- context [Nat.ltb ?x ?y] => destruct (Nat.ltb_spec x y)
         end;
  simpl; subst; try lia; try reflexivity.

Lemma getitem_nth {K : Type} (xs : list K) (i : nat) (d : K) :
  (i < length xs)%nat -> getitem xs i = Ok (nth i xs d).
Proof.
  intros Hi. unfold getitem. rewrite (nth_error_nth' xs d Hi). reflexivity.
Qed.

Lemma build_Ht_step_entries {K : Type} (zero : K) (sub : K -> K) (alpha beta : list K)
  (a : nat) (M : list (list K)) :
  (length alpha - 2 <= length beta)%nat ->
  (a < length alpha)%nat ->
  square (length alpha) M ->
  (forall r c, nth c (nth r M []) zero = assembled_upto zero sub alpha beta a r c) ->
  exists M',
    build_Ht_step sub alpha beta (length alpha) M a = Ok M'
    /\ square (length alpha) M'
    /\ forall r c, nth c (nth r M' []) zero
                   = assembled_upto zero sub alpha beta (S a) r c.
Proof.
  intros Hbeta Ha Hsq Hent. unfold build_Ht_step.
  rewrite (getitem_nth alpha a zero Ha). cbn [bind].
  destruct (setitem2_square zero _ M a a (nth a alpha zero) Hsq Ha Ha)
    as (M1 & -> & Hsq1 & Hent1).
  cbn [bind].
  destruct (Z.ltb_spec (Z.of_nat a) (Z.of_nat (length alpha) - 2)) as [Hlt|Hge].
  - assert (Hb : (a < length beta)%nat) by lia.
    rewrite (getitem_nth beta a zero Hb). cbn [bind].
    assert (Ha1 : (a + 1 < length alpha)%nat) by lia.
    destruct (setitem2_square zero _ M1 a (a + 1) (nth a beta zero) Hsq1 Ha Ha1)
      as (M2 & -> & Hsq2 & Hent2).
    cbn [bind].
    destruct (setitem2_square zero _ M2 (a + 1) a (sub (nth a beta zero)) Hsq2 Ha1 Ha)
      as (M3 & -> & Hsq3 & Hent3).
    exists M3. split; [reflexivity|]. split; [assumption|].
    intros r c. rewrite Hent3, Hent2, Hent1, Hent. unfold assembled_upto.
    nat_cases.
  - exists M1. split; [reflexivity|]. split; [assumption|].
    intros r c. rewrite Hent1, Hent. unfold assembled_upto.
    nat_cases.
Qed.

Lemma build_Ht_loop {K : Type} (zero : K) (sub : K -> K) (alpha beta : list K) :
  (length alpha - 2 <= length beta)%nat ->
  forall n a M,
    (a + n = length alpha)%nat ->
    square (length alpha) M ->
    (forall r c, nth c (nth r M []) zero = assembled_upto zero sub alpha beta a r c) ->
    exists M',
      for_each (build_Ht_step sub alpha beta (length alpha)) (seq a n) M = Ok M'
      /\ square (length alpha) M'
      /\ forall r c, nth c (nth r M' []) zero
                     = assembled_upto zero sub alpha beta (length alpha) r c.
Proof.
  intros Hbeta. induction n as [|n IH]; intros a M Han Hsq Hent.
  - assert (Ha : a = length alpha) by lia. subst a.
    exists M. split; [reflexivity|]. split; assumption.
  - simpl.
    destruct (build_Ht_step_entries zero sub alpha beta a M Hbeta ltac:(lia) Hsq Hent)
      as (M1 & -> & Hsq1 & Hent1).
    cbn [bind]. apply (IH (S a) M1); [lia|assumption|assumption].
Qed.

(** What the assembly writes, entry by entry. *)
Lemma build_Ht_entries {K : Type} (zero : K) (sub : K -> K) (alpha beta : list K) :
  (length alpha - 2 <= length beta)%nat ->
  exists M,
    build_Ht zero sub alpha beta = Ok M
    /\ square (length alpha) M
    /\ forall r c, (r < length alpha)%nat -> (c < length alpha)%nat ->
         nth c (nth r M []) zero = assembled_entry zero sub alpha beta r c.
Proof.
  intros Hbeta. unfold build_Ht, range.
  destruct (zeros2_square zero (length alpha)) as [Hsq Hz].
  destruct (build_Ht_loop zero sub alpha beta Hbeta (length alpha) 0
              (zeros2 zero (length alpha)) eq_refl Hsq) as (M & HM & HsqM & Hent).
  - intros r c. rewrite Hz. unfold assembled_upto. nat_cases.
  - exists M. split; [assumption|]. split; [assumption|].
    intros r c Hr Hc. rewrite Hent. unfold assembled_upto, assembled_entry.
    nat_cases.
Qed.

(** The last off-diagonal pair of the assembled matrix is zero, whatever
    the last coefficient [beta[m-2]] is. *)
Lemma build_Ht_last_pair_zero {K : Type} (zero : K) (sub : K -> K)
  (alpha beta : list K) (M : list (list K)) :
  (2 <= length alpha)%nat ->
  build_Ht zero sub alpha beta = Ok M ->
  (length alpha - 2 <= length beta)%nat ->
  nth (length alpha - 1) (nth (length alpha - 2) M []) zero = zero
  /\ nth (length alpha - 2) (nth (length alpha - 1) M []) zero = zero.
Proof.
  intros Hm HM Hbeta.
  destruct (build_Ht_entries zero sub alpha beta Hbeta) as (M' & HM' & _ & Hent).
  rewrite HM in HM'. injection HM' as <-.
  rewrite !Hent by lia. unfold assembled_entry. split; nat_cases.
Qed.

(* ================================================================== *)
(** ** A run of the two-level system *)

Lemma sqrt_of_square (x y : R) : 0 <= x -> y = x * x -> sqrt y = x.
Proof. intros Hx ->. apply sqrt_square. assumption. Qed.

Lemma two_level_seed (c : rvec) : dipole_seed two_level c 2 = Ok [2 * (1.0 / 2); 0 * (1.0 / 2)].
Proof.
  unfold dipole_seed. simpl.
  assert (Hn : norm [2; 0] = 2).
  { unfold norm. simpl. apply sqrt_of_square; lra. }
  rewrite Hn. destruct (Req_dec_T 2 0) as [H|_]; [lra|]. reflexivity.
Qed.

Lemma Rpower_one_exponent (x y : R) : 0 < x -> y = 1 -> Rpower x y = x.
Proof. intros Hx ->. apply Rpower_1. assumption. Qed.

Lemma Rpower_half (x y r : R) : 0 < r -> x = r * r -> y = / 2 -> Rpower x y = r.
Proof.
  intros Hr -> ->. rewrite Rpower_sqrt by nra. apply sqrt_square. lra.
Qed.

Lemma two_level_first_step :
  time_limit [[4/5; 3/5]; [-3/5; 4/5]] [-25; 25] 1e-6 2 = Ok 4e-5.
Proof.
  unfold time_limit. simpl.
  assert (Hn : norm [-25 * 1 * (3 / 5); 25 * 1 * (4 / 5)] = 25).
  { unfold norm. simpl. apply sqrt_of_square; lra. }
  rewrite Hn. destruct (Req_dec_T 25 0) as [H|_]; [lra|].
  f_equal.
  rewrite (Rpower_one_exponent (1 / 25) (1 / 1)) by lra.
  rewrite (Rpower_half 1e-6 (0.5 / 1) 1e-3) by lra.
  lra.
Qed.

Lemma two_level_restart_real (x y : R) :
  restart_real two_level [x; y]
  = Ok (mkRestart (upcast2 [[x; y]; [y; x]]) 2 (upcast2 [[-7; 0]; [0; 7]])
                  [-25; 25] (upcast2 [[4/5; 3/5]; [-3/5; 4/5]]) 4e-5).
Proof.
  unfold restart_real. simpl lanczos_real. cbv iota beta.
  change (build_Ht 0 (fun b => b) [-7; 7] [24]) with (Ok (A:=rmat) [[-7; 0]; [0; 7]]).
  pose proof two_level_first_step as Hstep.
  cbn -[time_limit] in Hstep |- *. rewrite Hstep. reflexivity.
Qed.

Lemma two_level_first_restart (e x y : R) (i : nat) (log0 : list event) :
  exists s0,
    first_restart two_level e [x; y] i log0 = Ok s0
    /\ t s0 = 0 + 4e-5
    /\ t_lim s0 = 4e-5
    /\ d s0 = [Cadd (RtoC 1) (Cmul Ci (RtoC 0)); C0]
    /\ len_tdiag s0 = 2%nat
    /\ A s0 = upcast2 [[x; y]; [y; x]]
    /\ U s0 = propagator two_level (upcast2 [[-7; 0]; [0; 7]]) 4e-5.
Proof.
  unfold first_restart. rewrite two_level_restart_real. simpl.
  eexists. split; [reflexivity|]. simpl. repeat split.
Qed.

Lemma two_level_seed_unit (c : rvec) : dipole_seed two_level c 2 = Ok [1; 0].
Proof. rewrite two_level_seed. do 2 f_equal; [lra|f_equal; lra]. Qed.

Lemma two_level_later_step :
  time_limit (real2 [[C1; C0]; [C0; C1]]) [-7; 7] 1e-6 2 = Ok (/ 7000).
Proof.
  unfold time_limit. simpl.
  assert (Hn : norm [-7 * 1 * 0; 7 * 1 * 1] = 7).
  { unfold norm. simpl. apply sqrt_of_square; lra. }
  rewrite Hn. destruct (Req_dec_T 7 0) as [H|_]; [lra|].
  f_equal.
  rewrite (Rpower_one_exponent (1 / 7) (1 / 1)) by lra.
  rewrite (Rpower_half 1e-6 (0.5 / 1) 1e-3) by lra.
  lra.
Qed.

Lemma two_level_restart_complex (x y : C) :
  restart_complex two_level [x; y]
  = Ok (mkRestart [[x; y]; [y; x]] 2 [[RtoC (-7); C0]; [C0; RtoC 7]]
                  [-7; 7] [[C1; C0]; [C0; C1]] (/ 7000)).
Proof.
  unfold restart_complex. simpl lanczos_complex. cbv iota beta.
  change (build_Ht C0 Cconj [RtoC (-7); RtoC 7] [RtoC 24])
    with (Ok (A:=cmat) [[RtoC (-7); C0]; [C0; RtoC 7]]).
  pose proof two_level_later_step as Hstep.
  cbn -[time_limit] in Hstep |- *. rewrite Hstep. reflexivity.
Qed.

Lemma Cexp_imaginary (z : C) (b : R) :
  re z = 0 -> im z = b -> Cexp z = mkC (cos b) (sin b).
Proof.
  intros Hre Him. unfold Cexp. rewrite Hre, Him, exp_0. apply C_eq; simpl; ring.
Qed.

Lemma two_level_propagator (t : R) :
  propagator two_level (upcast2 [[-7; 0]; [0; 7]]) t
  = [[mkC (cos (7 * t)) (sin (7 * t)); C0]; [C0; mkC (cos (- 7 * t)) (sin (- 7 * t))]].
Proof.
  unfold propagator. simpl.
  rewrite (Cexp_imaginary _ (7 * t)) by (simpl; ring).
  rewrite (Cexp_imaginary _ (- 7 * t)) by (simpl; ring).
  reflexivity.
Qed.

Lemma rsum_Cnorm2_nonneg (l : cvec) : 0 <= rsum (map Cnorm2 l).
Proof.
  induction l as [|z l IH]; simpl; [lra|].
  pose proof (Rle_0_sqr (re z)) as Hre. pose proof (Rle_0_sqr (im z)) as Him.
  unfold Rsqr in *. unfold Cnorm2 at 1. lra.
Qed.

Lemma cnorm_nonzero (z : C) (l : cvec) : Cnorm2 z = 1 -> cnorm (z :: l) <> 0.
Proof.
  intros Hz Hn. unfold cnorm in Hn.
  change (map Cnorm2 (z :: l)) with (Cnorm2 z :: map Cnorm2 l) in Hn.
  change (rsum (Cnorm2 z :: map Cnorm2 l)) with (Cnorm2 z + rsum (map Cnorm2 l)) in Hn.
  pose proof (rsum_Cnorm2_nonneg l) as Hl.
  apply sqrt_eq_0 in Hn; lra.
Qed.

Lemma two_level_pass (e th th' : R) (i : nat) (s : loop_state) :
  A s = upcast2 [[1; 0]; [0; 1]] ->
  len_tdiag s = 2%nat ->
  U s = [[mkC (cos th) (sin th); C0]; [C0; mkC (cos th') (sin th')]] ->
  d s = [Cadd (RtoC 1) (Cmul Ci (RtoC 0)); C0] ->
  exists s', loop_body two_level e [1; 0] 2 i s = Ok s' /\ t_lim s' = / 7000.
Proof.
  intros HA Hlen HU Hd. unfold loop_body. rewrite HA, Hlen, HU, Hd.
  cbn -[restart_complex cnorm Req_dec_T].
  match goal with
  | |- context [Req_dec_T (cnorm (?z :: ?l)) 0] =>
      destruct (Req_dec_T (cnorm (z :: l)) 0) as [Hz|_];
      [exfalso; revert Hz; apply cnorm_nonzero|]
  end.
  - unfold Cnorm2. simpl. pose proof (sin2_cos2 th) as Hsc. unfold Rsqr in Hsc.
    nra.
  - cbn -[restart_complex cnorm]. rewrite two_level_restart_complex.
    cbn -[cnorm]. eexists. split; reflexivity.
Qed.

(** The run of the third axis with [maxtime = 1e-4]: the first restart
    steps to 4e-5, one pass of the loop steps on by 1/7000, and the loop is
    left. *)
Lemma two_level_run (fuel : nat) (log0 : list event) :
  exists s,
    propagate_axis two_level (S fuel) (Some 1e-4) (-25) [1; 0] 2 2 log0 = Ok s
    /\ grid s = [0; 0 + 4e-5; 0 + 4e-5 + / 7000]
    /\ length (dipole_corr s) = 2%nat
    /\ t_lim s = / 7000.
Proof.
  destruct (two_level_first_restart (-25) 1 0 2 log0)
    as (s0 & H0 & Ht0 & Htl0 & Hd0 & Hlen0 & HA0 & HU0).
  rewrite two_level_propagator in HU0.
  destruct (two_level_pass (-25) _ _ 2 s0 HA0 Hlen0 HU0 Hd0) as (s1 & H1 & Htl1).
  pose proof (first_restart_Ok _ _ _ _ _ _ H0)
    as (r & Amu0 & x & _ & _ & _ & _ & _ & _ & _ & Hg0 & Hc0).
  pose proof (loop_body_Ok _ _ _ _ _ _ _ H1)
    as (_ & Ht1 & Hg1 & (y & Hc1) & _).
  unfold propagate_axis. rewrite H0. cbn [bind while_loop].
  destruct (Rlt_dec (t s0) 1e-4) as [_|Hge]; [|exfalso; lra].
  rewrite H1. cbn [bind].
  assert (Hstop : while_loop two_level fuel 1e-4 (-25) [1; 0] 2 2 s1 = Ok s1).
  { destruct fuel; simpl; destruct (Rlt_dec (t s1) 1e-4) as [Hlt|_];
      try reflexivity; exfalso; lra. }
  rewrite Hstop. cbn [bind]. eexists. split; [reflexivity|]. simpl.
  rewrite Hg1, Hg0, Hc1, Hc0, Ht1, Ht0, Htl1. repeat split.
Qed.

(** The same axis with [maxtime = 0]: the loop is not entered. *)
Lemma two_level_run_without_pass (fuel : nat) (log0 : list event) :
  exists s,
    propagate_axis two_level fuel (Some 0) (-25) [1; 0] 2 2 log0 = Ok s
    /\ grid s = [0; 0 + 4e-5].
Proof.
  destruct (two_level_first_restart (-25) 1 0 2 log0)
    as (s0 & H0 & Ht0 & _).
  pose proof (first_restart_Ok _ _ _ _ _ _ H0)
    as (r & Amu0 & x & _ & _ & _ & _ & _ & _ & _ & Hg0 & _).
  unfold propagate_axis. rewrite H0. cbn [bind].
  assert (Hstop : while_loop two_level fuel 0 (-25) [1; 0] 2 2 s0 = Ok s0).
  { destruct fuel; simpl; destruct (Rlt_dec (t s0) 0) as [Hlt|_];
      try reflexivity; exfalso; lra. }
  rewrite Hstop. cbn [bind]. eexists. split; [reflexivity|]. simpl.
  rewrite Hg0, Ht0. reflexivity.
Qed.

(** The whole driver on the two-level system. *)
Lemma two_level_kernel_run (fuel : nat) :
  exists grid samples events,
    kernel_lanczos two_level (S fuel) (two_level_call (Some 1e-4))
    = Ok ([VFloat (-25); VFloats grid; VComplexes samples], events)
    /\ length grid = 3%nat /\ length samples = 2%nat.
Proof.
  unfold kernel_lanczos.
  change (pspace_block two_level (two_level_call (Some 1e-4)))
    with (Ok (Davidson (Some (eig_dense two_level [[-7; 24]; [24; 7]])) [0; 1]%nat)).
  cbn [bind]. unfold davidson_lanczos.
  change (FCIBase_eig two_level _ _ _ _) with (Ok (OneRoot (-25) [4/5; -3/5])).
  cbn [bind]. change (mol_given (two_level_call (Some 1e-4))) with true. cbv iota.
  rewrite propagate_axes_eq, two_level_seed_unit. cbn [bind].
  destruct (two_level_run fuel [SkipLoop 0; SkipLoop 1]) as (s & Hrun & Hg & Hc & _).
  change (maxtime (two_level_call (Some 1e-4))) with (Some 1e-4).
  change (length [4 / 5; -3 / 5]) with 2%nat.
  rewrite Hrun. cbn [bind].
  exists (grid s), (dipole_corr s), (log s). split; [reflexivity|].
  rewrite Hg. split; [reflexivity|assumption].
Qed.

(* ================================================================== *)
(** * The claims *)

(** ** C1: the value the entry point returns *)

Lemma pspace_block_shortcut_arity E a result :
  pspace_block E a = Ok (Shortcut result) -> length result = 2%nat.
Proof.
  unfold pspace_block. intros H. bind_inv H.
  destruct (pspace E a _) as [[addr h0]|[]|]; try discriminate.
  destruct (_ && _ && _); [|discriminate].
  destruct (if (0 <? pspace_size a)%Z then _ else _) as [[pw pv]|]; [|discriminate].
  destruct (Nat.eqb _ 1).
  - bind_inv H. bind_inv H. injection H as <-. reflexivity.
  - destruct (1 <? _)%nat.
    + destruct (Nat.eqb _ _); [|discriminate].
      bind_inv H. injection H as <-. reflexivity.
    + bind_inv H. bind_inv H.
      destruct (Rgt_dec _ _); [|discriminate].
      bind_inv H. bind_inv H. injection H as <-. reflexivity.
Qed.

Lemma kernel_lanczos_arity E fuel a r :
  kernel_lanczos E fuel a = Ok r ->
  length (fst r) = 2%nat \/ length (fst r) = 3%nat.
Proof.
  unfold kernel_lanczos. intros H. bind_inv H.
  destruct x as [result|pw_pv addr].
  - injection H as <-. left. eapply pspace_block_shortcut_arity; eauto.
  - right. unfold davidson_lanczos in H. bind_inv H.
    destruct (mol_given a); [|discriminate].
    destruct x as [e c|es cs]; [|discriminate].
    unfold propagate_axes in H. bind_inv H.
    destruct (fst x) as [s|]; [|discriminate].
    injection H as <-. reflexivity.
Qed.

Lemma FCIBase_kernel_unpack (E : collaborators) (fuel : nat) (a : arguments) :
  FCIBase_kernel E fuel a =
    match kernel_lanczos E fuel a with
    | Ok _ => Raise ValueError
    | Raise e => Raise e
    | Halt h => Halt h
    end.
Proof.
  unfold FCIBase_kernel.
  destruct (kernel_lanczos E fuel a) as [r|ex|h] eqn:Hk; simpl; try reflexivity.
  apply kernel_lanczos_arity in Hk.
  destruct (fst r) as [|v1 [|v2 [|v3 [|v4 [|v5 [|v6 l]]]]]]; simpl in *;
    try reflexivity; destruct Hk; discriminate.
Qed.

(** C1.  [kernel_lanczos] never produces the five components that
    [FCIBase.kernel] unpacks: whenever [kernel_lanczos] returns, its tuple
    has two or three components and the unpacking raises [ValueError], so
    the entry point returns on no input.  On the two-level system
    [kernel_lanczos] returns the energy, a grid of three time points and two
    samples, and [FCIBase.kernel] raises [ValueError]. *)
Theorem FCIBase_kernel_cannot_unpack :
  (forall (E : collaborators) (fuel : nat) (a : arguments),
     FCIBase_kernel E fuel a =
       match kernel_lanczos E fuel a with
       | Ok _ => Raise ValueError
       | Raise e => Raise e
       | Halt h => Halt h
       end)
  /\ (exists grid samples events,
        kernel_lanczos two_level 1 (two_level_call (Some 1e-4))
        = Ok ([VFloat (-25); VFloats grid; VComplexes samples], events))
  /\ FCIBase_kernel two_level 1 (two_level_call (Some 1e-4)) = Raise ValueError.
Proof.
  split; [exact FCIBase_kernel_unpack|].
  destruct (two_level_kernel_run 0) as (g & c & evs & Hrun & _).
  split.
  - exists g, c, evs. exact Hrun.
  - rewrite FCIBase_kernel_unpack, Hrun. reflexivity.
Qed.

(* ================================================================== *)
(** ** C2: the axis loop *)

Lemma axis_2_events_are_not_of_axes_0_1 (ev : event) :
  axis_event 2 ev -> ~ axis_event 0 ev /\ ~ axis_event 1 ev.
Proof.
  destruct ev as [j|j|name content]; simpl.
  - intros [].
  - intros ->. split; discriminate.
  - intros [ -> | [ -> | -> ] ]; split; intros [H|[H|H]]; discriminate H.
Qed.

(** C2.  The axis loop goes through axis 2 alone: what [kernel_lanczos]
    returns after the Davidson iteration is the energy with the time grid
    and the correlation samples of axis 2, and apart from the two skip
    notices every event of the run (Krylov bases built, files written)
    belongs to axis 2 and to neither of the axes 0 and 1. *)
Theorem only_axis_2_is_propagated (E : collaborators) (fuel : nat) (a : arguments)
  (e : R) (c : rvec) :
  propagate_axes E fuel a e c =
    (mu <- dipole_seed E c 2 ;;
     s <- propagate_axis E fuel (maxtime a) e mu (length c) 2 [SkipLoop 0; SkipLoop 1] ;;
     Ok ([VFloat e; VFloats (grid s); VComplexes (dipole_corr s)], log s))
  /\ match propagate_axes E fuel a e c with
     | Ok (_, evs) =>
         exists evs',
           evs = [SkipLoop 0; SkipLoop 1] ++ evs'
           /\ Forall (fun ev => axis_event 2 ev /\ ~ axis_event 0 ev /\ ~ axis_event 1 ev)
                     evs'
     | _ => True
     end.
Proof.
  split; [apply propagate_axes_eq|].
  rewrite propagate_axes_eq.
  destruct (dipole_seed E c 2) as [mu| |]; simpl; try exact I.
  destruct (propagate_axis E fuel (maxtime a) e mu (length c) 2 _) as [s| |] eqn:Hp;
    simpl; try exact I.
  apply propagate_axis_log in Hp. destruct Hp as (evs & Hlog & Hall).
  exists evs. split; [assumption|].
  apply Forall_impl with (P := axis_event 2); [|assumption].
  intros ev Hev. split; [assumption|].
  apply axis_2_events_are_not_of_axes_0_1. assumption.
Qed.

(* ================================================================== *)
(** ** C3: the reduced Hamiltonian *)

(** C3.  For the Krylov dimension 3 with [alpha = [1, 2, 3]] and
    [beta = [4, 5]] (and, on a complex pass, [beta = [4+1j, 5+1j]]) the
    assembled [Ht] has [beta[0]] next to the diagonal and zeros where
    [beta[1]] belongs, while the tridiagonal matrix of the coefficients has
    5 there: the last off-diagonal pair is never written. *)
Theorem build_Ht_omits_last_offdiagonal :
  build_Ht 0 (fun b => b) [1; 2; 3] [4; 5]
    = Ok [[1; 4; 0]; [4; 2; 0]; [0; 0; 3]]
  /\ build_Ht C0 Cconj [RtoC 1; RtoC 2; RtoC 3] [mkC 4 1; mkC 5 1]
    = Ok [[RtoC 1; mkC 4 1; C0]; [Cconj (mkC 4 1); RtoC 2; C0]; [C0; C0; RtoC 3]]
  /\ tridiagonal_entry 0 (fun b => b) [1; 2; 3] [4; 5] 1 2 = 5
  /\ tridiagonal_entry 0 (fun b => b) [1; 2; 3] [4; 5] 2 1 = 5.
Proof.
  split; [reflexivity|]. split; [reflexivity|]. split; reflexivity.
Qed.

(* ================================================================== *)
(** ** C4: the time grid and the samples *)

(** C4 (as the code has it).  When the propagation of an axis finishes, the
    time grid has exactly one entry more than the sequence of correlation
    samples: every sample has its time point, and the last time point (the
    end of the last step) has no sample. *)
Theorem grid_one_longer_than_samples (E : collaborators) (fuel : nat)
  (maxtime : option R) (e : R) (mu : rvec) (nconf i : nat) (log0 : list event)
  (s : loop_state) :
  propagate_axis E fuel maxtime e mu nconf i log0 = Ok s ->
  length (grid s) = S (length (dipole_corr s)).
Proof.
  unfold propagate_axis. intros H.
  bind_inv H. bind_inv H. injection H as <-. simpl.
  destruct maxtime as [mt|]; [|discriminate].
  apply (while_loop_invariant E mt e mu nconf i
           (fun s => length (grid s) = S (length (dipole_corr s)))) in Hx0.
  - tauto.
  - intros s1 s2 Hlen _ Hbody. apply loop_body_Ok in Hbody.
    destruct Hbody as (_ & _ & Hg & (y & Hc) & _).
    rewrite Hg, Hc, !length_app, Hlen. simpl. lia.
  - apply first_restart_Ok in Hx.
    destruct Hx as (r & Amu0 & y & _ & _ & _ & _ & _ & _ & _ & Hg & Hc).
    rewrite Hg, Hc. reflexivity.
Qed.

Lemma grid_one_longer_than_samples_witness :
  exists s,
    propagate_axis two_level 1 (Some 1e-4) (-25) [1; 0] 2 2 [] = Ok s
    /\ length (grid s) = S (length (dipole_corr s)).
Proof.
  destruct (two_level_run 0 []) as (s & Hrun & _).
  exists s. split; [exact Hrun|].
  exact (grid_one_longer_than_samples _ _ _ _ _ _ _ _ _ Hrun).
Defined.

(** C4, as stated, fails on the two-level system with [maxtime = 1e-4]: the
    run ends with three time points and two samples. *)
Lemma grid_and_samples_differ_in_length :
  exists s,
    propagate_axis two_level 1 (Some 1e-4) (-25) [1; 0] 2 2 [] = Ok s
    /\ length (grid s) = 3%nat
    /\ length (dipole_corr s) = 2%nat
    /\ length (grid s) <> length (dipole_corr s).
Proof.
  destruct (two_level_run 0 []) as (s & Hrun & Hg & Hc & _).
  exists s. split; [exact Hrun|]. rewrite Hg, Hc. simpl. repeat split. discriminate.
Qed.

(* ================================================================== *)
(** ** C5: the amplitude vector *)

Lemma first_basis_vector_e_1 (m : nat) (v : cvec) :
  first_basis_vector m = Ok v -> v = e_1 m.
Proof.
  destruct m as [|n]; simpl; intros H; [discriminate|].
  injection H as <-. f_equal. apply C_eq; simpl; lra.
Qed.

(** C5 (as the code has it).  At every pass of the propagation loop the
    vector the propagator is applied to is the first canonical basis vector
    of the first restart's Krylov dimension: [d] is set once before the
    loop and no pass changes it.  The propagated amplitudes [d_next] only
    serve to rebuild the full-space vector that seeds the next Krylov
    basis. *)
Theorem propagator_is_applied_to_e_1 (E : collaborators) (maxtime e : R) (mu : rvec)
  (nconf i : nat) (log0 : list event) (s0 s : loop_state) :
  first_restart E e mu i log0 = Ok s0 ->
  loop_head E maxtime e mu nconf i s0 s ->
  d s = e_1 (len_tdiag s0).
Proof.
  intros Hfirst Hhead. induction Hhead as [|s s' _ IH _ Hbody].
  - apply first_restart_Ok in Hfirst.
    destruct Hfirst as (r & Amu0 & x & _ & Hd & _ & _ & Hlen & _).
    rewrite Hlen. apply first_basis_vector_e_1. assumption.
  - apply loop_body_Ok in Hbody. destruct Hbody as (Hd & _).
    rewrite Hd. exact IH.
Qed.

Lemma propagator_is_applied_to_e_1_witness :
  exists s0 s1,
    first_restart two_level (-25) [1; 0] 2 [] = Ok s0
    /\ loop_head two_level 1 (-25) [1; 0] 2 2 s0 s1
    /\ d s1 = e_1 (len_tdiag s0).
Proof.
  destruct (two_level_first_restart (-25) 1 0 2 [])
    as (s0 & H0 & Ht0 & Htl0 & Hd0 & Hlen0 & HA0 & HU0).
  rewrite two_level_propagator in HU0.
  destruct (two_level_pass (-25) _ _ 2 s0 HA0 Hlen0 HU0 Hd0) as (s1 & H1 & Htl1).
  assert (Hhead : loop_head two_level 1 (-25) [1; 0] 2 2 s0 s1).
  { apply (head_next _ _ _ _ _ _ _ s0 s1); [apply head_first|lra|exact H1]. }
  exists s0, s1. split; [exact H0|]. split; [exact Hhead|].
  exact (propagator_is_applied_to_e_1 two_level 1 (-25) [1; 0] 2 2 [] s0 s1 H0 Hhead).
Defined.

(** C5, as stated, fails on the two-level system with [maxtime = 1]: the
    first pass of the loop turns [e_1] into the amplitudes [d_next], whose
    first entry has the imaginary part [sin (7 * 4e-5)]; the clock is still
    below [maxtime], and the second pass applies its propagator to [d],
    which is [e_1] and not [d_next]. *)
Lemma amplitudes_are_not_carried_forward :
  exists s0 s1 d_next,
    first_restart two_level (-25) [1; 0] 2 [] = Ok s0
    /\ t s0 < 1
    /\ einsum_ij_j (U s0) (d s0) = Ok d_next
    /\ loop_body two_level (-25) [1; 0] 2 2 s0 = Ok s1
    /\ t s1 < 1
    /\ d s1 = e_1 2
    /\ d s1 <> d_next.
Proof.
  destruct (two_level_first_restart (-25) 1 0 2 [])
    as (s0 & H0 & Ht0 & Htl0 & Hd0 & Hlen0 & HA0 & HU0).
  rewrite two_level_propagator in HU0.
  destruct (two_level_pass (-25) _ _ 2 s0 HA0 Hlen0 HU0 Hd0) as (s1 & H1 & Htl1).
  pose proof (loop_body_Ok _ _ _ _ _ _ _ H1) as (Hd1 & Ht1 & _).
  exists s0, s1. eexists.
  split; [exact H0|]. split; [lra|].
  split; [rewrite HU0, Hd0; simpl; reflexivity|].
  split; [exact H1|]. split; [lra|].
  rewrite Hd1, Hd0. split.
  - simpl. f_equal. apply C_eq; simpl; lra.
  - intros Heq. injection Heq as Hre Him _ _.
    pose proof (sin_pos_tech (7 * 4e-5)) as Hsin.
    assert (Hpos : 0 < sin (7 * 4e-5)) by (apply Hsin; lra).
    nra.
Qed.

(* ================================================================== *)
(** ** C6: the sample at time zero *)







Lemma csum_against_zeros (v : cvec) (n : nat) :
  csum (map (fun p => Cmul (fst p) (snd p)) (combine v (repeat C0 n))) = C0.
Proof.
  revert n. induction v as [|z v IH]; intros [|n]; simpl; try reflexivity.
  rewrite IH. apply C_eq; simpl; ring.
Qed.

Lemma dot_e_1 (a : C) (v : cvec) (n : nat) (z : C) :
  dot (a :: v) (e_1 (S n)) = Ok z -> z = a.
Proof.
  unfold dot. destruct (Nat.eqb _ _); [|discriminate].
  intros H. injection H as <-. simpl.
  rewrite csum_against_zeros. apply C_eq; simpl; ring.
Qed.







(* ================================================================== *)
(** ** C7: the time step against the specification's formula *)

Lemma column_spec_column (T : rmat) (k : nat) (col : rvec) :
  column T k = Ok col -> spec_column (upcast2 T) k = upcast col.
Proof.
  unfold column, spec_column, upcast2. revert col.
  induction T as [|row T IH]; simpl; intros col H.
  - injection H as <-. reflexivity.
  - bind_inv H. bind_inv H. injection H as <-. simpl. f_equal.
    + unfold getitem in Hx. destruct (nth_error row k) as [y|] eqn:Hn; [|discriminate].
      injection Hx as <-. unfold upcast.
      rewrite (nth_indep _ C0 (RtoC 0)).
      * rewrite map_nth. f_equal. apply nth_error_nth. assumption.
      * rewrite length_map. apply nth_error_Some. rewrite Hn. discriminate.
    + apply IH. assumption.
Qed.

Lemma weighted_norm (k : nat) (w col : rvec) :
  rsum (map Cnorm2 (map (fun p => Cscale (fst p ^ k) (snd p)) (combine w (upcast col))))
  = rsum (map (fun x => x * x)
              (map (fun p => fst p * snd p) (combine (map (fun x => x ^ k) w) col))).
Proof.
  revert col. induction w as [|x w IH]; intros [|y col]; simpl; try reflexivity.
  rewrite IH. unfold Cnorm2. simpl. ring.
Qed.

Lemma time_limit_formula (T : rmat) (w : rvec) (m : nat) (x : R) :
  length w = length T ->
  time_limit T w 1e-6 m = Ok x ->
  x = t_lim_spec w (upcast2 T) m.
Proof.
  intros Hlen H. unfold time_limit in H.
  destruct m as [|k]; [bind_inv H; bind_inv H; discriminate|].
  bind_inv H. bind_inv H. destruct k as [|k]; [discriminate|].
  destruct (Req_dec_T _ 0); [discriminate|]. injection H as <-.
  unfold t_lim_spec. replace (S (S k) - 1)%nat with (S k) by lia.
  rename x0 into col, x1 into vTdag.
  assert (Hcol : length col = length T) by (eapply map_run_length; eauto).
  unfold mul_broadcast in Hx0.
  rewrite length_map, Hlen, Hcol, Nat.eqb_refl in Hx0. injection Hx0 as <-.
  rewrite (column_spec_column _ _ _ Hx).
  unfold cnorm, norm. rewrite weighted_norm. reflexivity.
Qed.

(** C7 (as the code has it).  Provided the eigen-solvers return as many
    eigenvalues as eigenvector rows, the time step of every restart is
    [(factorial(m-1) / ‖w^(m-1) ⊙ T[:,m-1]‖)^(1/(m-1)) · thr^(0.5/(m-1))] with
    [thr = 1e-6] and [m] the Krylov dimension, where on the first pass [w],
    [T] are what [eigh_tridiagonal] returns for the recurrence coefficients
    and on every later pass [w] are the eigenvalues and [T] the real parts
    of the eigenvectors that [eigh] returns for the assembled [Ht]. *)
Theorem time_step_formula (E : collaborators) :
  (forall d e', length (fst (eigh_tridiagonal E d e'))
                = length (snd (eigh_tridiagonal E d e'))) ->
  (forall M, length (fst (eigh E M)) = length (snd (eigh E M))) ->
  (forall mu r, restart_real E mu = Ok r ->
     (exists T,
        eigh_tridiagonal E (alpha (lanczos_real E (hop E) mu))
          (slice_to (beta (lanczos_real E (hop E) mu)) (Z.of_nat (r_len_tdiag r) - 1))
        = (r_w r, T) /\ r_T r = upcast2 T)
     /\ r_t_lim r = t_lim_spec (r_w r) (r_T r) (r_len_tdiag r))
  /\ (forall fcivec r, restart_complex E fcivec = Ok r ->
     eigh E (r_Ht r) = (r_w r, r_T r)
     /\ r_t_lim r = t_lim_spec (r_w r) (upcast2 (real2 (r_T r))) (r_len_tdiag r)).
Proof.
  intros Htri Hfull. split.
  - intros mu r H. unfold restart_real in H. bind_inv H.
    pose proof (Htri (slice_to (alpha (lanczos_real E (hop E) mu))
                               (Z.of_nat (length (alpha (lanczos_real E (hop E) mu)))))
                     (slice_to (beta (lanczos_real E (hop E) mu))
                               (Z.of_nat (length (alpha (lanczos_real E (hop E) mu))) - 1)))
      as Hshape.
    destruct (eigh_tridiagonal E _ _) as [w T] eqn:Heig. bind_inv H.
    injection H as <-. simpl in *. split.
    + exists T. split; [|reflexivity]. rewrite <- Heig. f_equal.
      unfold slice_to.
      replace (Z.of_nat (length (alpha (lanczos_real E (hop E) mu))) <? 0)%Z with false
        by (symmetry; apply Z.ltb_ge; lia).
      rewrite Nat2Z.id, firstn_all. reflexivity.
    + apply time_limit_formula; assumption.
  - intros fcivec r H. unfold restart_complex in H. bind_inv H.
    pose proof (Hfull x) as Hshape.
    destruct (eigh E x) as [w T] eqn:Heig. bind_inv H.
    injection H as <-. simpl in *. split; [assumption|].
    apply time_limit_formula; [|assumption].
    unfold real2. rewrite length_map. assumption.
Qed.

Lemma time_step_formula_witness :
  (forall mu r, restart_real two_level mu = Ok r ->
     (exists T,
        eigh_tridiagonal two_level (alpha (lanczos_real two_level (hop two_level) mu))
          (slice_to (beta (lanczos_real two_level (hop two_level) mu))
                    (Z.of_nat (r_len_tdiag r) - 1))
        = (r_w r, T) /\ r_T r = upcast2 T)
     /\ r_t_lim r = t_lim_spec (r_w r) (r_T r) (r_len_tdiag r))
  /\ (forall fcivec r, restart_complex two_level fcivec = Ok r ->
     eigh two_level (r_Ht r) = (r_w r, r_T r)
     /\ r_t_lim r = t_lim_spec (r_w r) (upcast2 (real2 (r_T r))) (r_len_tdiag r)).
Proof.
  apply (time_step_formula two_level); intros; reflexivity.
Defined.

(** The eigen-data of [complex_pass] are genuine: every column of
    [complex_pass_T] is an eigenvector of the assembled [Ht] for the
    eigenvalue of the same index. *)
Lemma complex_pass_eigenpairs :
  exists Ht,
    build_Ht C0 Cconj [RtoC 10; RtoC 17; RtoC (-1)] [mkC 0 12; C0] = Ok Ht
    /\ forall j w, nth_error [-1; 1; 26] j = Some w ->
         exists v, einsum_ij_j Ht (spec_column complex_pass_T j) = Ok v
                   /\ v = map (Cscale w) (spec_column complex_pass_T j).
Proof.
  eexists. split; [reflexivity|].
  intros j w Hj.
  destruct j as [|[|[|j]]]; simpl in Hj; try (destruct j; discriminate);
    injection Hj as <-; eexists; (split; [reflexivity|]); simpl;
    repeat (f_equal; try (apply C_eq; simpl; lra)).
Qed.

Lemma Rpower_base_inj (a b y : R) :
  0 < a -> 0 < b -> y <> 0 -> Rpower a y = Rpower b y -> a = b.
Proof.
  intros Ha Hb Hy H. unfold Rpower in H. apply exp_inv in H.
  apply ln_inv; try assumption.
  apply (Rmult_eq_reg_l y); assumption.
Qed.

(** C7, as stated, fails on a later pass with a complex off-diagonal
    coefficient: [eigh] returns the eigenvector (3/5, -4j/5, 0) for the
    largest eigenvalue, the code passes its real part (3/5, 0, 0) to
    [time_limit], and the step it gets is not the one the formula gives for
    the eigenvector itself. *)
Lemma real_part_changes_the_time_step :
  exists r,
    restart_complex complex_pass [C1; C0; C0] = Ok r
    /\ eigh complex_pass (r_Ht r) = (r_w r, r_T r)
    /\ r_len_tdiag r = 3%nat
    /\ r_t_lim r <> t_lim_spec (r_w r) (r_T r) (r_len_tdiag r).
Proof.
  assert (Hstep : time_limit (real2 complex_pass_T) [-1; 1; 26] 1e-6 3
                  = Ok (Rpower (INR (fact 2) / (3 / 5)) (1 / INR 2)
                        * Rpower 1e-6 (0.5 / INR 2))).
  { unfold time_limit. simpl column. cbv iota beta. simpl mul_broadcast. cbv iota beta.
    assert (Hn : norm [-1 * (-1 * 1) * (3 / 5); 1 * (1 * 1) * 0; 26 * (26 * 1) * 0]
                 = 3 / 5).
    { unfold norm. simpl. apply sqrt_of_square; lra. }
    simpl bind. rewrite Hn.
    destruct (Req_dec_T (3 / 5) 0) as [H|_]; [lra|]. reflexivity. }
  unfold restart_complex. simpl lanczos_complex. cbv iota beta.
  change (build_Ht C0 Cconj [RtoC 10; RtoC 17; RtoC (-1)] [mkC 0 12; C0])
    with (Ok (A:=cmat) [[RtoC 10; mkC 0 12; C0]; [Cconj (mkC 0 12); RtoC 17; C0];
                        [C0; C0; RtoC (-1)]]).
  cbn -[time_limit Rpower] in Hstep |- *. rewrite Hstep. cbn [bind].
  eexists. split; [reflexivity|]. split; [reflexivity|]. split; [reflexivity|].
  cbn [r_t_lim r_w r_T r_len_tdiag].
  unfold t_lim_spec. change (3 - 1)%nat with 2%nat.
  assert (Hn : cnorm (map (fun p => Cscale (fst p ^ 2) (snd p))
                          (combine [-1; 1; 26] (spec_column complex_pass_T 2))) = 1).
  { unfold cnorm, Cnorm2. simpl. apply sqrt_of_square; lra. }
  rewrite Hn. intros Heq.
  apply Rmult_eq_reg_r in Heq; [|pose proof (Rpower_pos 1e-6 (0.5 / INR 2)); lra].
  apply Rpower_base_inj in Heq; simpl in *; lra.
Qed.

(* ================================================================== *)
(** ** C8: the bounds of the time grid *)

Lemma nondecreasing_snoc (l : list R) (x y : R) :
  nondecreasing (l ++ [x]) -> x <= y -> nondecreasing (l ++ [x; y]).
Proof.
  induction l as [|a l IH]; intros H Hxy.
  - simpl. auto.
  - destruct l as [|b l].
    + simpl in *. destruct H. auto.
    + change (a <= b /\ nondecreasing ((b :: l) ++ [x])) in H.
      change (a <= b /\ nondecreasing ((b :: l) ++ [x; y])).
      destruct H. split; auto.
Qed.

Lemma grid_shape_first E maxtime e mu i log0 s0 :
  0 < maxtime -> first_restart E e mu i log0 = Ok s0 -> grid_shape maxtime s0.
Proof.
  intros Hmax H. apply first_restart_Ok in H.
  destruct H as (r & Amu0 & x & Hr & _ & _ & _ & _ & Ht & Hclock & Hg & _).
  apply restart_real_t_lim_pos in Hr.
  exists [], 0. rewrite Hg, Ht, Hclock. simpl.
  repeat split; auto; try lra.
Qed.

Lemma grid_shape_next E maxtime e mu nconf i s s' :
  grid_shape maxtime s -> t s < maxtime -> loop_body E e mu nconf i s = Ok s' ->
  grid_shape maxtime s'.
Proof.
  intros (g & prev & Hg & Hall & Hsorted & _ & _) Hlt Hbody.
  pose proof (loop_body_t_lim_pos _ _ _ _ _ _ _ Hbody) as Hpos.
  apply loop_body_Ok in Hbody.
  destruct Hbody as (_ & Hclock & Hg' & _).
  exists (g ++ [prev]), (t s). repeat split.
  - rewrite Hg', Hg, <- !app_assoc. reflexivity.
  - apply Forall_app. split; [assumption|]. constructor; [assumption|constructor].
  - rewrite Hg', Hg.
    replace ((g ++ [prev; t s]) ++ [t s']) with ((g ++ [prev]) ++ [t s; t s'])
      by (rewrite <- !app_assoc; reflexivity).
    apply nondecreasing_snoc.
    + rewrite <- app_assoc. simpl. rewrite <- Hg. assumption.
    + lra.
  - assumption.
  - assumption.
Qed.

(** C8 (as the code has it).  For a positive [maxtime], when the propagation
    of an axis finishes its time grid is non-decreasing, every entry but the
    last is below [maxtime], and the last entry is at least [maxtime] and
    exceeds it by less than the last step [t_lim].  (The steps the model
    computes are positive, so no assumption on them is needed.) *)
Theorem time_grid_bounds (E : collaborators) (fuel : nat) (maxtime e : R)
  (mu : rvec) (nconf i : nat) (log0 : list event) (s : loop_state) :
  0 < maxtime ->
  propagate_axis E fuel (Some maxtime) e mu nconf i log0 = Ok s ->
  nondecreasing (grid s)
  /\ Forall (fun x => x < maxtime) (removelast (grid s))
  /\ last (grid s) 0 = t s
  /\ maxtime <= t s < maxtime + t_lim s.
Proof.
  intros Hmax H. unfold propagate_axis in H.
  bind_inv H. bind_inv H. injection H as <-. simpl.
  apply (while_loop_invariant E maxtime e mu nconf i (grid_shape maxtime)) in Hx0.
  - destruct Hx0 as [(g & prev & Hg & Hall & Hsorted & Hclock & Hpos) Hend].
    split; [assumption|].
    rewrite Hg.
    replace (g ++ [prev; t x0]) with ((g ++ [prev]) ++ [t x0])
      by (rewrite <- app_assoc; reflexivity).
    rewrite removelast_last, last_last.
    split; [assumption|]. split; [reflexivity|].
    assert (Hprev : prev < maxtime).
    { rewrite Forall_forall in Hall. apply Hall. apply in_or_app. right. left. reflexivity. }
    lra.
  - intros s1 s2. apply grid_shape_next.
  - eapply grid_shape_first; eauto.
Qed.

Lemma time_grid_bounds_witness :
  exists s,
    propagate_axis two_level 1 (Some 1e-4) (-25) [1; 0] 2 2 [] = Ok s
    /\ nondecreasing (grid s)
    /\ Forall (fun x => x < 1e-4) (removelast (grid s))
    /\ last (grid s) 0 = t s
    /\ 1e-4 <= t s < 1e-4 + t_lim s.
Proof.
  destruct (two_level_run 0 []) as (s & Hrun & _).
  exists s. split; [exact Hrun|].
  apply (time_grid_bounds two_level 1 1e-4 (-25) [1; 0] 2 2 [] s); [lra|exact Hrun].
Defined.

(** C8, as stated, fails on the two-level system with [maxtime = 0]: the
    grid is [[0, 4e-5]], and its first entry is not below [maxtime]. *)
Lemma first_grid_entry_not_below_maxtime :
  exists s,
    propagate_axis two_level 1 (Some 0) (-25) [1; 0] 2 2 [] = Ok s
    /\ grid s = [0; 0 + 4e-5]
    /\ ~ (nondecreasing (grid s)
          /\ Forall (fun x => x < 0) (removelast (grid s))
          /\ last (grid s) 0 <= 0 + t_lim s).
Proof.
  destruct (two_level_run_without_pass 1 []) as (s & Hrun & Hg).
  exists s. split; [exact Hrun|]. split; [exact Hg|].
  rewrite Hg. simpl. intros (_ & Hall & _).
  inversion Hall as [|x l Hx _]. lra.
Qed.

(* ================================================================== *)
(** ** C9: the pspace block *)

(** C9.  With a pspace that covers the whole space, no initial guess,
    [davidson_only] off, one root, more than one determinant and two lowest
    pspace eigenvalues closer than 1e-12, the pspace block returns nothing:
    both drivers go on to the Davidson iteration. *)
Theorem near_degenerate_pspace_runs_davidson (E : collaborators) (a : arguments)
  (addr : list nat) (h0 : rmat) (pw : rvec) (pv : rmat) (pw0 pw1 : R) :
  (pspace_size a >= Z.of_nat (na a * nb a))%Z ->
  ci0 a = None ->
  davidson_only a = false ->
  nroots a = 1%nat ->
  (1 < na a * nb a)%nat ->
  pspace E a (Z.max (pspace_size a) 1) = Ok (addr, h0) ->
  eig_dense E h0 = (pw, pv) ->
  nth_error pw 0 = Some pw0 ->
  nth_error pw 1 = Some pw1 ->
  Rabs (pw0 - pw1) < 1e-12 ->
  pspace_block E a = Ok (Davidson (Some (pw, pv)) addr)
  /\ kernel_ms1 E a = davidson_ms1 E a (Some (pw, pv)) addr
  /\ forall fuel, kernel_lanczos E fuel a = davidson_lanczos E fuel a (Some (pw, pv)) addr.
Proof.
  intros Hsize Hci0 Hdav Hroots Hdim Hps Heig Hpw0 Hpw1 Hgap.
  assert (Hblock : pspace_block E a = Ok (Davidson (Some (pw, pv)) addr)).
  { unfold pspace_block, make_hdiag_size.
    assert (Hreal : complex_hamiltonian a = false).
    { unfold pspace in Hps. destruct (63 <? norb a)%nat; [discriminate|].
      destruct (complex_hamiltonian a); [discriminate|reflexivity]. }
    rewrite Hreal. simpl. rewrite Hroots.
    replace (Nat.min (na a * nb a) 1) with 1%nat by lia.
    change (Z.of_nat 1) with 1%Z. rewrite Hps.
    replace (0 <? pspace_size a)%Z with true by (symmetry; apply Z.ltb_lt; lia).
    replace (pspace_size a >=? Z.of_nat (na a * nb a))%Z with true
      by (symmetry; apply Z.geb_le; lia).
    rewrite Hci0, Hdav, Heig. simpl.
    replace (Nat.eqb (na a * nb a) 1) with false by (symmetry; apply Nat.eqb_neq; lia).
    unfold getitem. rewrite Hpw0, Hpw1. simpl.
    destruct (Rgt_dec (Rabs (pw0 - pw1)) 1e-12) as [Hgt|_]; [lra|reflexivity]. }
  split; [exact Hblock|]. split.
  - unfold kernel_ms1. rewrite Hblock. reflexivity.
  - intros fuel. unfold kernel_lanczos. rewrite Hblock. reflexivity.
Qed.

Lemma near_degenerate_pspace_runs_davidson_witness :
  pspace_block degenerate degenerate_call
    = Ok (Davidson (Some ([3; 3], [[1; 0]; [0; 1]])) [0; 1]%nat)
  /\ kernel_ms1 degenerate degenerate_call
     = davidson_ms1 degenerate degenerate_call (Some ([3; 3], [[1; 0]; [0; 1]])) [0; 1]%nat
  /\ forall fuel, kernel_lanczos degenerate fuel degenerate_call
     = davidson_lanczos degenerate fuel degenerate_call
         (Some ([3; 3], [[1; 0]; [0; 1]])) [0; 1]%nat.
Proof.
  apply (near_degenerate_pspace_runs_davidson degenerate degenerate_call
           [0; 1]%nat [[3; 0]; [0; 3]] [3; 3] [[1; 0]; [0; 1]] 3 3).
  - simpl. lia.
  - reflexivity.
  - reflexivity.
  - reflexivity.
  - simpl. lia.
  - reflexivity.
  - reflexivity.
  - reflexivity.
  - reflexivity.
  - replace (3 - 3) with 0 by lra. rewrite Rabs_R0. lra.
Defined.

(* ================================================================== *)
(** ** C10: [FCIBase.energy] *)

(** C10 (as the code has it).  On a solver object as [__init__] leaves it,
    with a base class that does not define [contract_2e_complex], no call
    of the [energy] method returns; and whenever [_unpack_nelec] and
    [absorb_h1e] complete (so neither [h1e] nor [eri] is complex128) the
    call raises the attribute-lookup error. *)
Theorem FCIBase_energy_never_returns (SO : Classes.class) (x : Classes.energy_call) :
  Classes.defines "contract_2e_complex" (Classes.class_dict SO) = false ->
  is_ok (Classes.FCIBase_energy (Classes.new_FCISolver SO) x) = false
  /\ (forall n h2e,
        Classes.unpack_nelec x (Classes.nelec x) = Ok n ->
        Classes.FCIBase_absorb_h1e x n = Ok h2e ->
        Classes.FCIBase_energy (Classes.new_FCISolver SO) x = Raise AttributeError).
Proof.
  intros HSO.
  assert (Hlookup : Classes.getattr (Classes.new_FCISolver SO) "contract_2e_complex"
                    = Raise AttributeError).
  { unfold Classes.getattr. simpl. rewrite HSO. reflexivity. }
  assert (Habsorb : Classes.getattr (Classes.new_FCISolver SO) "absorb_h1e"
                    = Ok (Classes.Bound "FCIBase" "absorb_h1e")).
  { reflexivity. }
  unfold Classes.FCIBase_energy. rewrite Habsorb, Hlookup. split.
  - destruct (Classes.unpack_nelec x (Classes.nelec x)) as [n| |]; simpl; try reflexivity.
    destruct (Classes.FCIBase_absorb_h1e x n) as [h2e| |]; reflexivity.
  - intros n h2e Hn Hh. rewrite Hn. simpl. rewrite Hh. reflexivity.
Qed.

Lemma FCIBase_energy_never_returns_witness :
  is_ok (Classes.FCIBase_energy (Classes.new_FCISolver StreamObject) real_call) = false
  /\ (forall n h2e,
        Classes.unpack_nelec real_call (Classes.nelec real_call) = Ok n ->
        Classes.FCIBase_absorb_h1e real_call n = Ok h2e ->
        Classes.FCIBase_energy (Classes.new_FCISolver StreamObject) real_call
        = Raise AttributeError).
Proof.
  apply (FCIBase_energy_never_returns StreamObject real_call). reflexivity.
Defined.

(** C10, as stated, fails for a complex128 [h1e]: the guard of
    [absorb_h1e] raises [NotImplementedError] before the lookup of
    [contract_2e_complex] is reached. *)
Lemma energy_with_complex_integrals_raises_not_implemented :
  Classes.FCIBase_energy (Classes.new_FCISolver StreamObject) complex_call
  = Raise NotImplementedError
  /\ raises (Classes.FCIBase_energy (Classes.new_FCISolver StreamObject) complex_call)
     <> Some AttributeError.
Proof. split; [reflexivity|]. simpl. discriminate. Qed.

(** With real integrals the same call does raise the lookup error. *)
Lemma energy_with_real_integrals_raises_attribute_error :
  Classes.FCIBase_energy (Classes.new_FCISolver StreamObject) real_call
  = Raise AttributeError.
Proof. reflexivity. Qed.

(* ================================================================== *)
(** * Further properties *)

(** ** The two drivers: guards and early returns *)

(** X1.  A complex128 Hamiltonian stops both drivers: [make_hdiag] is called
    before the [try] block that catches [NotImplementedError], so neither
    [kernel_ms1] nor [kernel_lanczos] gets past it. *)
Theorem complex_hamiltonian_is_not_implemented (E : collaborators) (fuel : nat)
  (a : arguments) :
  complex_hamiltonian a = true ->
  kernel_ms1 E a = Raise NotImplementedError
  /\ kernel_lanczos E fuel a = Raise NotImplementedError.
Proof.
  intros Hc. unfold kernel_ms1, kernel_lanczos, pspace_block, make_hdiag_size.
  rewrite Hc. split; reflexivity.
Qed.

Lemma complex_hamiltonian_is_not_implemented_witness :
  kernel_ms1 two_level (mkArguments 2 2 1 true true None 1 true 400 (Some 1) 0)
    = Raise NotImplementedError
  /\ kernel_lanczos two_level 5 (mkArguments 2 2 1 true true None 1 true 400 (Some 1) 0)
    = Raise NotImplementedError.
Proof.
  apply (complex_hamiltonian_is_not_implemented two_level 5
           (mkArguments 2 2 1 true true None 1 true 400 (Some 1) 0)).
  reflexivity.
Defined.

(** X2.  With more than 63 orbitals (and a real Hamiltonian) the
    [NotImplementedError] of [pspace] is caught: whatever [pspace_size],
    [ci0] and [davidson_only] are, no early return is taken, and the
    Davidson iteration starts with [addr = [0]], without pspace eigenpairs,
    hence with the diagonal preconditioner. *)
Theorem more_than_63_orbitals_skip_pspace (E : collaborators) (a : arguments)
  (level_shift : R) (hdiag : rvec) :
  (63 < norb a)%nat ->
  complex_hamiltonian a = false ->
  pspace_block E a = Ok (Davidson None [O])
  /\ make_precond level_shift hdiag None [O] = DiagPrecond hdiag level_shift.
Proof.
  intros Hn Hc. unfold pspace_block, make_hdiag_size, pspace. rewrite Hc.
  apply Nat.ltb_lt in Hn. cbn [bind]. rewrite Hn. split; reflexivity.
Qed.

Lemma more_than_63_orbitals_skip_pspace_witness :
  pspace_block two_level (mkArguments 64 2 1 false true None 1 false 400 (Some 1) 0)
    = Ok (Davidson None [O])
  /\ make_precond 1e-3 [-7; 7] None [O] = DiagPrecond [-7; 7] 1e-3.
Proof.
  apply (more_than_63_orbitals_skip_pspace two_level
           (mkArguments 64 2 1 false true None 1 false 400 (Some 1) 0) 1e-3 [-7; 7]).
  - simpl. lia.
  - reflexivity.
Defined.

(** X3.  Which preconditioner the Davidson iteration gets: whenever the
    pspace block falls through, [make_precond] builds the diagonal
    preconditioner exactly when [pspace] was not available (more than 63
    orbitals) or [pspace_size] is not positive. *)
Theorem diagonal_preconditioner_iff (E : collaborators) (a : arguments)
  (pw_pv : option (rvec * rmat)) (addr : list nat) (level_shift : R) (hdiag : rvec) :
  pspace_block E a = Ok (Davidson pw_pv addr) ->
  (make_precond level_shift hdiag pw_pv addr = DiagPrecond hdiag level_shift
   <-> ((63 < norb a)%nat \/ (pspace_size a <= 0)%Z)).
Proof.
  unfold pspace_block, make_hdiag_size, pspace.
  destruct (complex_hamiltonian a); [discriminate|]. cbn [bind].
  destruct (63 <? norb a)%nat eqn:Hn.
  - intros H. injection H as <- <-. apply Nat.ltb_lt in Hn. simpl. tauto.
  - apply Nat.ltb_ge in Hn.
    destruct (pspace_select E _) as [addr0 h0].
    destruct (0 <? pspace_size a)%Z eqn:Hp.
    + apply Z.ltb_lt in Hp.
      assert (Hgoal : forall pw pv ad,
                 make_precond level_shift hdiag (Some (pw, pv)) ad
                 = DiagPrecond hdiag level_shift
                 <-> ((63 < norb a)%nat \/ (pspace_size a <= 0)%Z)).
      { intros pw pv ad. simpl. split; [discriminate|]. intros [H|H]; lia. }
      destruct (eig_dense E h0) as [pw pv].
      destruct (_ && _ && _).
      * destruct (Nat.eqb (na a * nb a) 1).
        { destruct (getitem pw 0); try discriminate. cbn [bind].
          destruct (column pv 0); discriminate. }
        destruct (1 <? _)%nat.
        { destruct (Nat.eqb _ _); [|discriminate].
          destruct (map_run _ _); discriminate. }
        destruct (getitem pw 0); try discriminate. cbn [bind].
        destruct (getitem pw 1); try discriminate. cbn [bind].
        destruct (Rgt_dec _ _).
        { destruct (column pv 0); try discriminate. cbn [bind].
          destruct (scatter _ _ _); discriminate. }
        intros H. injection H as <- <-. apply Hgoal.
      * intros H. injection H as <- <-. apply Hgoal.
    + apply Z.ltb_ge in Hp.
      destruct (_ && _ && _); [discriminate|].
      intros H. injection H as <- <-. simpl. split; [right; assumption|reflexivity].
Qed.

Lemma diagonal_preconditioner_iff_witness :
  pspace_block two_level (two_level_call (Some 1%R))
    = Ok (Davidson (Some (eig_dense two_level [[-7; 24]; [24; 7]])) [0; 1]%nat)
  /\ (make_precond 1e-3 [-7; 7] (Some (eig_dense two_level [[-7; 24]; [24; 7]]))
                   [0; 1]%nat
      = DiagPrecond [-7; 7] 1e-3
      <-> ((63 < norb (two_level_call (Some 1%R)))%nat
       \/ (pspace_size (two_level_call (Some 1%R)) <= 0)%Z)).
Proof.
  split; [reflexivity|].
  apply (diagonal_preconditioner_iff two_level (two_level_call (Some 1))).
  reflexivity.
Defined.

(** X4.  An initial guess or [davidson_only] rules the early returns out:
    the pspace block then never returns a result of its own. *)
Theorem no_shortcut_with_guess_or_davidson_only (E : collaborators) (a : arguments)
  (result : list value) :
  davidson_only a = true \/ ci0 a <> None ->
  pspace_block E a <> Ok (Shortcut result).
Proof.
  intros Hcase. unfold pspace_block.
  destruct (make_hdiag_size a) as [n| |]; cbn [bind]; try discriminate.
  destruct (pspace E a _) as [[addr h0]|[]|]; try discriminate.
  assert (Hguard : (pspace_size a >=? Z.of_nat (na a * nb a))%Z
                   && (match ci0 a with None => true | Some _ => false end)
                   && negb (davidson_only a) = false).
  { destruct Hcase as [Hd|Hc].
    - rewrite Hd. simpl. apply andb_false_r.
    - destruct (ci0 a); [|congruence]. rewrite andb_false_r. reflexivity. }
  rewrite Hguard. discriminate.
Qed.

Lemma no_shortcut_with_guess_or_davidson_only_witness :
  pspace_block two_level (two_level_call (Some 1)) <> Ok (Shortcut []).
Proof.
  apply (no_shortcut_with_guess_or_davidson_only two_level (two_level_call (Some 1)) []).
  left. reflexivity.
Defined.

(** X5.  A space of one determinant is solved by the pspace block alone:
    both drivers return the lowest pspace eigenvalue plus [ecore] and the
    first pspace eigenvector, and [kernel_lanczos] returns these two
    components only, without a time grid or a correlation function, without
    having tridiagonalised or written anything, and without looking at the
    molecule or at [maxtime]. *)
Theorem single_determinant_returns_early (E : collaborators) (fuel : nat) (a : arguments)
  (pw : rvec) (pv : rmat) (pw0 : R) (col : rvec) :
  complex_hamiltonian a = false ->
  (norb a <= 63)%nat ->
  (na a * nb a = 1)%nat ->
  ci0 a = None ->
  davidson_only a = false ->
  (1 <= pspace_size a)%Z ->
  eig_dense E (snd (pspace_select E
     (Z.to_nat (Z.max (pspace_size a) (Z.of_nat (Nat.min 1 (nroots a))))))) = (pw, pv) ->
  getitem pw 0 = Ok pw0 ->
  column pv 0 = Ok col ->
  kernel_lanczos E fuel a = Ok ([VFloat (pw0 + ecore a); VVector col], [])
  /\ kernel_ms1 E a = Ok [VFloat (pw0 + ecore a); VVector col].
Proof.
  intros Hc Hn Hone Hci Hd Hp Heig Hpw Hcol.
  assert (Hblock : pspace_block E a
                   = Ok (Shortcut [VFloat (pw0 + ecore a); VVector col])).
  { unfold pspace_block, make_hdiag_size, pspace. rewrite Hc. cbn [bind].
    apply Nat.ltb_ge in Hn. rewrite Hn, Hone.
    destruct (pspace_select E _) as [addr h0]. simpl in Heig. rewrite Hci, Hd.
    assert (Hpos : (0 <? pspace_size a)%Z = true) by (apply Z.ltb_lt; lia).
    assert (Hge : (pspace_size a >=? Z.of_nat 1)%Z = true) by (apply Z.geb_le; lia).
    rewrite Hpos, Hge, Heig. simpl. rewrite Hpw. cbn [bind]. rewrite Hcol.
    reflexivity. }
  unfold kernel_lanczos, kernel_ms1. rewrite Hblock. split; reflexivity.
Qed.

Lemma single_determinant_returns_early_witness :
  kernel_lanczos single_determinant 0 single_determinant_call
    = Ok ([VFloat (3 + ecore single_determinant_call); VVector [1]], [])
  /\ kernel_ms1 single_determinant single_determinant_call
    = Ok [VFloat (3 + ecore single_determinant_call); VVector [1]].
Proof.
  apply (single_determinant_returns_early single_determinant 0 single_determinant_call
           [3] [[1]] 3 [1]).
  - reflexivity.
  - simpl. lia.
  - reflexivity.
  - reflexivity.
  - reflexivity.
  - simpl. lia.
  - reflexivity.
  - reflexivity.
  - reflexivity.
Defined.

(** X6.  Past the pspace block the two drivers disagree on the energy they
    return: whenever [kernel_lanczos] returns from its Davidson path, its
    first component is the bare Davidson eigenvalue [e], while [kernel_ms1]
    on the same arguments returns [e + ecore] (the early returns of both
    add [ecore]). *)
Theorem lanczos_energy_lacks_ecore (E : collaborators) (fuel : nat) (a : arguments)
  (pw_pv : option (rvec * rmat)) (addr : list nat) (r : list value) (evs : list event) :
  pspace_block E a = Ok (Davidson pw_pv addr) ->
  kernel_lanczos E fuel a = Ok (r, evs) ->
  exists e c grid samples,
    r = [VFloat e; VFloats grid; VComplexes samples]
    /\ kernel_ms1 E a = Ok [VFloat (e + ecore a); VVector c].
Proof.
  intros Hblock. unfold kernel_lanczos, kernel_ms1. rewrite Hblock. cbn [bind].
  unfold davidson_lanczos, davidson_ms1. intros H. bind_name H as res Hres.
  rewrite Hres. cbn [bind].
  destruct (mol_given a); [|discriminate].
  destruct res as [e c|es cs]; [|discriminate].
  rewrite propagate_axes_eq in H.
  bind_name H as mu Hmu. bind_name H as s Hs. injection H as <- <-.
  exists e, c, (grid s), (dipole_corr s). split; reflexivity.
Qed.

Lemma lanczos_energy_lacks_ecore_witness :
  exists e c grid samples r evs,
    kernel_lanczos two_level 1 (two_level_call (Some 1e-4)) = Ok (r, evs)
    /\ r = [VFloat e; VFloats grid; VComplexes samples]
    /\ kernel_ms1 two_level (two_level_call (Some 1e-4))
       = Ok [VFloat (e + ecore (two_level_call (Some 1e-4))); VVector c].
Proof.
  destruct (two_level_kernel_run 0) as (g & smp & evs & Hrun & _).
  destruct (lanczos_energy_lacks_ecore two_level 1 (two_level_call (Some 1e-4))
              (Some (eig_dense two_level [[-7; 24]; [24; 7]])) [0; 1]%nat _ evs
              eq_refl Hrun)
    as (e & c & grid & samples & Hr & Hms1).
  exists e, c, grid, samples, [VFloat (-25); VFloats g; VComplexes smp], evs.
  repeat split; assumption.
Defined.

(** X7.  What a dipole correlation function needs: [kernel_lanczos] returns
    from its Davidson path only if the solver has a molecule, [maxtime] was
    passed (its default [None] cannot be compared with the clock), and
    exactly one root is asked for.  In every other case the call ends in
    an error after the Davidson iteration has run. *)
Theorem propagation_requirements (E : collaborators) (fuel : nat) (a : arguments)
  (pw_pv : option (rvec * rmat)) (addr : list nat) (r : list value * list event) :
  pspace_block E a = Ok (Davidson pw_pv addr) ->
  kernel_lanczos E fuel a = Ok r ->
  mol_given a = true
  /\ (exists T, maxtime a = Some T)
  /\ Nat.min (na a * nb a) (nroots a) = 1%nat.
Proof.
  intros Hblock. unfold kernel_lanczos. rewrite Hblock. cbn [bind].
  unfold davidson_lanczos. intros H. bind_name H as res Hres.
  destruct (mol_given a); [|discriminate].
  destruct res as [e c|es cs]; [|discriminate].
  rewrite propagate_axes_eq in H. bind_name H as mu Hmu. bind_name H as s Hs.
  split; [reflexivity|]. split.
  - unfold propagate_axis in Hs. bind_name Hs as s0 Hs0. bind_name Hs as s1 Hs1.
    destruct (maxtime a) as [T|]; [eauto|discriminate].
  - unfold FCIBase_eig in Hres. destruct (davidson E _ _ _ _) as [es cs].
    destruct (Nat.eqb _ 1) eqn:Hone; [|discriminate].
    apply Nat.eqb_eq in Hone. exact Hone.
Qed.

Lemma propagation_requirements_witness :
  exists r,
    kernel_lanczos two_level 1 (two_level_call (Some 1e-4)) = Ok r
    /\ mol_given (two_level_call (Some 1e-4)) = true
    /\ (exists T, maxtime (two_level_call (Some 1e-4)) = Some T)
    /\ Nat.min (na (two_level_call (Some 1e-4)) * nb (two_level_call (Some 1e-4)))
               (nroots (two_level_call (Some 1e-4))) = 1%nat.
Proof.
  destruct (two_level_kernel_run 0) as (g & smp & evs & Hrun & _).
  eexists. split; [exact Hrun|].
  exact (propagation_requirements two_level 1 (two_level_call (Some 1e-4))
           (Some (eig_dense two_level [[-7; 24]; [24; 7]])) [0; 1]%nat _
           eq_refl Hrun).
Defined.

(** ** The propagation loop: what the records hold *)

(** The shape of a run of [propagate_axis] that returns. *)
Lemma propagate_axis_Ok E fuel maxtime e mu nconf i log0 s :
  propagate_axis E fuel maxtime e mu nconf i log0 = Ok s ->
  exists T s0 s1,
    maxtime = Some T
    /\ first_restart E e mu i log0 = Ok s0
    /\ while_loop E fuel T e mu nconf i s0 = Ok s1
    /\ s = mkLoop (A s1) (len_tdiag s1) (Ht s1) (t_lim s1) (U s1) (d s1) (t s1)
                  (refresh s1) (grid s1) (dipole_corr s1) (list_left s1)
                  (list_htdiag s1) (log s1 ++ save_artifacts i s1).
Proof.
  unfold propagate_axis. intros H. bind_name H as s0 H0. bind_name H as s1 H1.
  destruct maxtime as [T|]; [|discriminate].
  injection H as <-. exists T, s0, s1. repeat split; assumption.
Qed.

Lemma project_dipole_length (A0 : list cvec) (m : nat) (mu : rvec) (Amu0 : cvec) :
  project_dipole A0 m mu = Ok Amu0 -> length Amu0 = m.
Proof.
  unfold project_dipole. intros H. apply map_run_length in H.
  rewrite H. unfold range. apply length_seq.
Qed.

(** Against the first basis vector only the first projection counts. *)
Lemma sample_first_entry (Amu0 d0 : cvec) (m : nat) (e t0 : R) (x : C) :
  first_basis_vector m = Ok d0 ->
  sample Amu0 d0 e t0 = Ok x ->
  x = Cmul (nth 0 Amu0 C0) (Cexp (Cmul (Cmul Ci (RtoC e)) (RtoC t0))).
Proof.
  intros Hd H. unfold sample in H. bind_name H as z Hz. injection H as <-.
  destruct m as [|n]; [discriminate Hd|].
  apply first_basis_vector_e_1 in Hd. subst d0.
  destruct Amu0 as [|a v]; [discriminate Hz|].
  apply dot_e_1 in Hz. subst z. reflexivity.
Qed.

Lemma first_restart_records E e mu i log0 s :
  first_restart E e mu i log0 = Ok s ->
  exists Amu0 x,
    first_basis_vector (len_tdiag s) = Ok (d s)
    /\ sample Amu0 (d s) e 0 = Ok x
    /\ length Amu0 = len_tdiag s
    /\ grid s = [0; t s]
    /\ dipole_corr s = [x]
    /\ list_left s = [Amu0]
    /\ list_htdiag s = [Ht s]
    /\ refresh s = 1%nat.
Proof.
  unfold first_restart. intros H.
  bind_name H as r Hr. bind_name H as d0 Hd. bind_name H as v Hv.
  bind_name H as Amu0 Hp. bind_name H as x Hx. injection H as <-. simpl.
  exists Amu0, x. repeat split; try assumption.
  eapply project_dipole_length; eassumption.
Qed.

Lemma loop_body_records E e mu nconf i s s' :
  loop_body E e mu nconf i s = Ok s' ->
  exists Amu0 x,
    sample Amu0 (d s) e (t s) = Ok x
    /\ length Amu0 = len_tdiag s'
    /\ dipole_corr s' = dipole_corr s ++ [x]
    /\ list_left s' = list_left s ++ [Amu0].
Proof.
  unfold loop_body. intros H.
  bind_name H as dn Hdn. bind_name H as fc Hfc. bind_name H as r Hr.
  bind_name H as v Hv. bind_name H as Amu0 Hp. bind_name H as x Hx.
  injection H as <-. simpl. exists Amu0, x. repeat split; try assumption.
  eapply project_dipole_length; eassumption.
Qed.

Lemma sample_lengths (Amu0 d0 : cvec) (e t0 : R) (x : C) :
  sample Amu0 d0 e t0 = Ok x -> length Amu0 = length d0.
Proof.
  unfold sample, dot. destruct (Nat.eqb (length Amu0) (length d0)) eqn:Hl;
    [|discriminate].
  intros _. apply Nat.eqb_eq. assumption.
Qed.

Lemma first_basis_vector_length (m : nat) (d0 : cvec) :
  first_basis_vector m = Ok d0 -> length d0 = m.
Proof.
  destruct m as [|n]; simpl; intros H; [discriminate|].
  injection H as <-. simpl. rewrite repeat_length. reflexivity.
Qed.

(** X8.  The restart counter counts the records: when the propagation of an
    axis returns after [refresh] tridiagonalisations, it has recorded
    [refresh] correlation samples, [refresh] projection vectors and
    [refresh] reduced Hamiltonians, the last of which is the current one,
    and [refresh + 1] time points. *)
Theorem records_in_step_with_refresh (E : collaborators) (fuel : nat)
  (maxtime : option R) (e : R) (mu : rvec) (nconf i : nat) (log0 : list event)
  (s : loop_state) :
  propagate_axis E fuel maxtime e mu nconf i log0 = Ok s ->
  (1 <= refresh s)%nat
  /\ length (dipole_corr s) = refresh s
  /\ length (list_left s) = refresh s
  /\ length (list_htdiag s) = refresh s
  /\ length (grid s) = S (refresh s)
  /\ last (list_htdiag s) [] = Ht s.
Proof.
  intros H. apply propagate_axis_Ok in H.
  destruct H as (T & s0 & s1 & _ & H0 & Hloop & ->). simpl.
  apply (while_loop_invariant E T e mu nconf i
           (fun s => (1 <= refresh s)%nat
                     /\ length (dipole_corr s) = refresh s
                     /\ length (list_left s) = refresh s
                     /\ length (list_htdiag s) = refresh s
                     /\ length (grid s) = S (refresh s)
                     /\ last (list_htdiag s) [] = Ht s)) in Hloop.
  - tauto.
  - intros sa sb (H1 & H2 & H3 & H4 & H5 & H6) _ Hbody.
    apply loop_body_Ok in Hbody.
    destruct Hbody as (_ & _ & Hg & (x & Hc) & (Amu0 & Hl) & Hh & _ & Hr).
    rewrite Hg, Hc, Hl, Hh, Hr, !length_app, last_last. simpl.
    repeat split; lia.
  - apply first_restart_records in H0.
    destruct H0 as (Amu0 & x & _ & _ & _ & Hg & Hc & Hl & Hh & Hr).
    rewrite Hg, Hc, Hl, Hh, Hr. simpl. repeat split; lia.
Qed.

Lemma records_in_step_with_refresh_witness :
  exists s,
    propagate_axis two_level 1 (Some 1e-4) (-25) [1; 0] 2 2 [] = Ok s
    /\ (1 <= refresh s)%nat
    /\ length (dipole_corr s) = refresh s
    /\ length (list_left s) = refresh s
    /\ length (list_htdiag s) = refresh s
    /\ length (grid s) = S (refresh s)
    /\ last (list_htdiag s) [] = Ht s.
Proof.
  destruct (two_level_run 0 []) as (s & Hrun & _).
  exists s. split; [exact Hrun|].
  exact (records_in_step_with_refresh two_level 1 (Some 1e-4) (-25) [1; 0] 2 2 [] s Hrun).
Defined.

(** X9.  What an axis leaves in the event log: one tridiagonalisation per
    restart and then the three files, which hold the projection vectors,
    the reduced Hamiltonians and the time grid as they are when the loop is
    left; nothing is written while the loop runs. *)
Theorem axis_log_is_restarts_then_files (E : collaborators) (fuel : nat)
  (maxtime : option R) (e : R) (mu : rvec) (nconf i : nat) (log0 : list event)
  (s : loop_state) :
  propagate_axis E fuel maxtime e mu nconf i log0 = Ok s ->
  log s = log0 ++ repeat (Tridiagonalize i) (refresh s)
               ++ [ Save ("dip_" ++ str i ++ ".npy") (Projections (list_left s));
                    Save ("Ht_" ++ str i ++ ".npy") (Hamiltonians (list_htdiag s));
                    Save ("lan_nodes_" ++ str i ++ ".txt") (Nodes (grid s)) ].
Proof.
  intros H. apply propagate_axis_Ok in H.
  destruct H as (T & s0 & s1 & _ & H0 & Hloop & ->). simpl.
  apply (while_loop_invariant E T e mu nconf i
           (fun s => log s = log0 ++ repeat (Tridiagonalize i) (refresh s))) in Hloop.
  - destruct Hloop as [-> _]. unfold save_artifacts. rewrite <- app_assoc. reflexivity.
  - intros sa sb Hlog _ Hbody. apply loop_body_Ok in Hbody.
    destruct Hbody as (_ & _ & _ & _ & _ & _ & Hl & Hr).
    rewrite Hl, Hr, Hlog, <- app_assoc. f_equal.
    rewrite Nat.add_1_r. change [Tridiagonalize i] with (repeat (Tridiagonalize i) 1).
    rewrite <- repeat_app. f_equal. lia.
  - pose proof (first_restart_log _ _ _ _ _ _ H0) as Hlog.
    apply first_restart_records in H0.
    destruct H0 as (_ & _ & _ & _ & _ & _ & _ & _ & _ & Hr).
    rewrite Hlog, Hr. reflexivity.
Qed.

Lemma axis_log_is_restarts_then_files_witness :
  exists s,
    propagate_axis two_level 1 (Some 1e-4) (-25) [1; 0] 2 2 [] = Ok s
    /\ log s = [] ++ repeat (Tridiagonalize 2) (refresh s)
               ++ [ Save ("dip_" ++ str 2 ++ ".npy") (Projections (list_left s));
                    Save ("Ht_" ++ str 2 ++ ".npy") (Hamiltonians (list_htdiag s));
                    Save ("lan_nodes_" ++ str 2 ++ ".txt") (Nodes (grid s)) ].
Proof.
  destruct (two_level_run 0 []) as (s & Hrun & _).
  exists s. split; [exact Hrun|].
  exact (axis_log_is_restarts_then_files two_level 1 (Some 1e-4) (-25) [1; 0] 2 2 [] s Hrun).
Defined.

(** X10.  All restarts of an axis have the Krylov dimension of the first
    one: [d] keeps the length it got before the loop and every projection
    vector is contracted with it, so a restart of another dimension ends
    the run with [ValueError].  When the propagation returns, the current
    dimension is the length of [d] and every recorded projection vector
    has that length (the array written to [dip_i.npy] is rectangular). *)
Theorem krylov_dimension_is_constant (E : collaborators) (fuel : nat)
  (maxtime : option R) (e : R) (mu : rvec) (nconf i : nat) (log0 : list event)
  (s : loop_state) :
  propagate_axis E fuel maxtime e mu nconf i log0 = Ok s ->
  len_tdiag s = length (d s)
  /\ Forall (fun Amu0 => length Amu0 = len_tdiag s) (list_left s).
Proof.
  intros H. apply propagate_axis_Ok in H.
  destruct H as (T & s0 & s1 & _ & H0 & Hloop & ->). simpl.
  apply (while_loop_invariant E T e mu nconf i
           (fun s => len_tdiag s = length (d s)
                     /\ Forall (fun Amu0 => length Amu0 = len_tdiag s) (list_left s)))
    in Hloop.
  - tauto.
  - intros sa sb (Hlen & Hall) _ Hbody.
    pose proof (loop_body_Ok _ _ _ _ _ _ _ Hbody) as (Hd & _).
    apply loop_body_records in Hbody.
    destruct Hbody as (Amu0 & x & Hx & HA & _ & Hl).
    apply sample_lengths in Hx.
    assert (Hsame : len_tdiag sb = len_tdiag sa) by congruence.
    rewrite Hl, Hd, Hsame. split; [assumption|].
    apply Forall_app. split; [assumption|]. constructor; [congruence|constructor].
  - apply first_restart_records in H0.
    destruct H0 as (Amu0 & x & Hd & _ & HA & _ & _ & Hl & _).
    apply first_basis_vector_length in Hd. rewrite Hl, Hd. split; [reflexivity|].
    constructor; [assumption|constructor].
Qed.

Lemma krylov_dimension_is_constant_witness :
  exists s,
    propagate_axis two_level 1 (Some 1e-4) (-25) [1; 0] 2 2 [] = Ok s
    /\ len_tdiag s = length (d s)
    /\ Forall (fun Amu0 => length Amu0 = len_tdiag s) (list_left s).
Proof.
  destruct (two_level_run 0 []) as (s & Hrun & _).
  exists s. split; [exact Hrun|].
  exact (krylov_dimension_is_constant two_level 1 (Some 1e-4) (-25) [1; 0] 2 2 [] s Hrun).
Defined.

(** X11.  What a correlation sample is: the sample recorded at the [k]-th
    time point is the first entry of the [k]-th projection vector (the
    overlap of the first Krylov vector of that restart with the dipole
    vector) times the phase [exp(1j*e*t)] at that time point.  The
    propagator [U] enters only through the vector that seeds the next
    Krylov basis. *)
Theorem sample_is_first_projection_times_phase (E : collaborators) (fuel : nat)
  (maxtime : option R) (e : R) (mu : rvec) (nconf i : nat) (log0 : list event)
  (s : loop_state) (k : nat) :
  propagate_axis E fuel maxtime e mu nconf i log0 = Ok s ->
  (k < length (dipole_corr s))%nat ->
  nth k (dipole_corr s) C0
  = Cmul (nth 0 (nth k (list_left s) []) C0)
         (Cexp (Cmul (Cmul Ci (RtoC e)) (RtoC (nth k (grid s) 0)))).
Proof.
  intros H. apply propagate_axis_Ok in H.
  destruct H as (T & s0 & s1 & _ & H0 & Hloop & ->). simpl.
  apply (while_loop_invariant E T e mu nconf i
           (fun s => (exists m, first_basis_vector m = Ok (d s))
                     /\ length (list_left s) = length (dipole_corr s)
                     /\ nth (length (dipole_corr s)) (grid s) 0 = t s
                     /\ length (grid s) = S (length (dipole_corr s))
                     /\ forall k, (k < length (dipole_corr s))%nat ->
                          nth k (dipole_corr s) C0
                          = Cmul (nth 0 (nth k (list_left s) []) C0)
                                 (Cexp (Cmul (Cmul Ci (RtoC e))
                                             (RtoC (nth k (grid s) 0))))))
    in Hloop.
  - destruct Hloop as [(_ & _ & _ & _ & Hall) _]. revert k. exact Hall.
  - intros sa sb ((m & Hd) & Hll & Hg & Hgl & Hall) _ Hbody.
    pose proof (loop_body_Ok _ _ _ _ _ _ _ Hbody) as (Hd' & _ & Hg' & _).
    apply loop_body_records in Hbody.
    destruct Hbody as (Amu0 & x & Hx & _ & Hc & Hl).
    apply (sample_first_entry _ _ _ _ _ _ Hd) in Hx.
    rewrite Hd', Hc, Hl, Hg', !length_app. simpl.
    assert (E1 : nth (length (dipole_corr sa)) (dipole_corr sa ++ [x]) C0 = x).
    { rewrite app_nth2, Nat.sub_diag by lia. reflexivity. }
    assert (E2 : nth (length (dipole_corr sa)) (list_left sa ++ [Amu0]) [] = Amu0).
    { rewrite <- Hll, app_nth2, Nat.sub_diag by lia. reflexivity. }
    assert (E3 : nth (length (dipole_corr sa)) (grid sa ++ [t sb]) 0 = t sa).
    { rewrite app_nth1 by lia. exact Hg. }
    split; [eauto|]. split; [lia|]. split.
    { rewrite app_nth2 by lia.
      replace (length (dipole_corr sa) + 1 - length (grid sa))%nat with 0%nat by lia.
      reflexivity. }
    split; [lia|]. intros j Hj.
    destruct (Nat.eq_dec j (length (dipole_corr sa))) as [->|Hne].
    + rewrite E1, E2, E3. exact Hx.
    + rewrite (app_nth1 (dipole_corr sa)) by lia.
      rewrite (app_nth1 (list_left sa)) by lia.
      rewrite (app_nth1 (grid sa)) by lia. apply Hall. lia.
  - apply first_restart_records in H0.
    destruct H0 as (Amu0 & x & Hd & Hx & _ & Hg & Hc & Hl & _).
    apply (sample_first_entry _ _ _ _ _ _ Hd) in Hx.
    rewrite Hg, Hc, Hl. simpl. split; [eauto|]. repeat split.
    intros [|j] Hj; [exact Hx|lia].
Qed.

Lemma sample_is_first_projection_times_phase_witness :
  exists s,
    propagate_axis two_level 1 (Some 1e-4) (-25) [1; 0] 2 2 [] = Ok s
    /\ (1 < length (dipole_corr s))%nat
    /\ nth 1 (dipole_corr s) C0
       = Cmul (nth 0 (nth 1 (list_left s) []) C0)
              (Cexp (Cmul (Cmul Ci (RtoC (-25))) (RtoC (nth 1 (grid s) 0)))).
Proof.
  destruct (two_level_run 0 []) as (s & Hrun & _ & Hlen & _).
  assert (Hk : (1 < length (dipole_corr s))%nat) by (rewrite Hlen; lia).
  exists s. split; [exact Hrun|]. split; [exact Hk|].
  exact (sample_is_first_projection_times_phase two_level 1 (Some 1e-4) (-25) [1; 0]
           2 2 [] s 1 Hrun Hk).
Defined.

(** ** The time step *)

(** X12.  A dipole state that is an eigenstate of the Hamiltonian cannot be
    propagated: when the Lanczos recurrence of the first restart stops
    after one vector, the time-step estimate divides by [lanczos - 1 = 0]
    and the axis ends with [ZeroDivisionError] before anything is
    recorded. *)
Theorem one_krylov_vector_divides_by_zero (E : collaborators) (e : R) (mu : rvec)
  (i : nat) (log0 : list event) (a w x : R) :
  alpha (lanczos_real E (hop E) mu) = [a] ->
  eigh_tridiagonal E [a] (slice_to (beta (lanczos_real E (hop E) mu)) 0) = ([w], [[x]]) ->
  first_restart E e mu i log0 = Raise ZeroDivisionError.
Proof.
  intros Ha Heig. unfold first_restart, restart_real. rewrite Ha.
  change (build_Ht 0 (fun b => b) [a] (beta (lanczos_real E (hop E) mu)))
    with (Ok (A:=rmat) [[a]]).
  cbn [bind length]. change (slice_to [a] (Z.of_nat 1)) with [a].
  change (Z.of_nat 1 - 1)%Z with 0%Z. rewrite Heig. reflexivity.
Qed.

Lemma one_krylov_vector_divides_by_zero_witness :
  first_restart eigenstate_seed (-25) [4/5; -3/5] 2 [] = Raise ZeroDivisionError.
Proof.
  apply (one_krylov_vector_divides_by_zero eigenstate_seed (-25) [4/5; -3/5] 2 []
           (-25) (-25) 1).
  - reflexivity.
  - reflexivity.
Defined.

Lemma combine_scale_l (c : R) (a b : rvec) :
  map (fun p => fst p * snd p) (combine (map (fun x => c * x) a) b)
  = map (fun x => c * x) (map (fun p => fst p * snd p) (combine a b)).
Proof.
  revert b. induction a as [|x a IH]; intros [|y b]; simpl; try reflexivity.
  rewrite IH. f_equal. ring.
Qed.

Lemma mul_broadcast_scale_l (c : R) (a b y : rvec) :
  mul_broadcast a b = Ok y ->
  mul_broadcast (map (fun x => c * x) a) b = Ok (map (fun x => c * x) y).
Proof.
  unfold mul_broadcast. rewrite length_map.
  destruct (Nat.eqb (length a) (length b)).
  - intros H. injection H as <-. rewrite combine_scale_l. reflexivity.
  - destruct a as [|x [|x' a']]; destruct b as [|z [|z' b']]; simpl; intros H;
      try discriminate; injection H as <-; simpl; rewrite ?map_map;
      repeat first [ reflexivity | ring | apply map_ext; intros; ring
                   | apply (f_equal Ok) | apply f_equal2 ].
Qed.

Lemma norm_scale (c : R) (y : rvec) :
  0 <= c -> norm (map (fun x => c * x) y) = c * norm y.
Proof.
  intros Hc. unfold norm.
  assert (Hsum : rsum (map (fun x => x * x) (map (fun x => c * x) y))
                 = (c * c) * rsum (map (fun x => x * x) y)).
  { induction y as [|x y IH]; simpl; [ring|]. rewrite IH. ring. }
  rewrite Hsum, sqrt_mult_alt by nra. rewrite sqrt_square by assumption. reflexivity.
Qed.

Lemma norm_nonneg (y : rvec) : 0 <= norm y.
Proof. unfold norm. apply sqrt_pos. Qed.

Lemma Rpower_inv_pow_root (c : R) (k : nat) :
  0 < c -> (0 < k)%nat -> Rpower (/ c ^ k) (1 / INR k) = / c.
Proof.
  intros Hc Hk.
  assert (HK : 0 < INR k) by (apply lt_0_INR; assumption).
  rewrite <- (Rpower_pow k c Hc), <- Rpower_Ropp, Rpower_mult.
  replace (- INR k * (1 / INR k)) with (- (1)) by (field; lra).
  rewrite Rpower_Ropp, Rpower_1 by assumption. reflexivity.
Qed.

(** X13.  The time step is inversely proportional to the energy scale:
    multiplying the eigenvalues handed to [time_limit] by [c > 0] (the
    eigenvectors left as they are) divides the step by [c]. *)
Theorem time_limit_scales_inversely (T : rmat) (v : rvec) (thr c : R) (m : nat) (x : R) :
  0 < c ->
  time_limit T v thr m = Ok x ->
  time_limit T (scale c v) thr m = Ok (x / c).
Proof.
  intros Hc. unfold time_limit. destruct m as [|k].
  { intros H. bind_name H as col Hcol. bind_name H as y Hy. discriminate. }
  intros H. bind_name H as col Hcol. bind_name H as y Hy.
  destruct k as [|k']; [discriminate|]. set (k := S k') in *.
  destruct (Req_dec_T (norm y) 0) as [|Hnz]; [discriminate|].
  injection H as Hx.
  change (Rpower (INR (fact k) / norm y) (1 / INR k) * Rpower thr (0.5 / INR k) = x)
    in Hx.
  rewrite <- Hx. clear Hx.
  assert (Hpow : 0 < c ^ k) by (apply pow_lt; assumption).
  assert (Hlp : map (fun x => x ^ k) (scale c v)
                = map (fun x => c ^ k * x) (map (fun x => x ^ k) v)).
  { unfold scale. rewrite !map_map. apply map_ext. intros z. apply Rpow_mult_distr. }
  rewrite Hcol. cbn [bind]. rewrite Hlp, (mul_broadcast_scale_l _ _ _ _ Hy).
  cbn [bind]. rewrite norm_scale by lra.
  pose proof (norm_nonneg y) as Hy0.
  destruct (Req_dec_T (c ^ k * norm y) 0) as [Hz|_]; [exfalso; nra|].
  f_equal.
  assert (Hfact : 0 < INR (fact k)) by apply INR_fact_lt_0.
  assert (Hratio : 0 < INR (fact k) / norm y).
  { apply Rdiv_lt_0_compat; lra. }
  replace (INR (fact k) / (c ^ k * norm y)) with (INR (fact k) / norm y * / c ^ k)
    by (field; split; lra).
  rewrite <- Rpower_mult_distr by (try assumption; apply Rinv_0_lt_compat; assumption).
  rewrite Rpower_inv_pow_root by (try assumption; unfold k; lia).
  generalize (Rpower (INR (fact k) / norm y) (1 / INR k)) (Rpower thr (0.5 / INR k)).
  intros p q. field. lra.
Qed.

Lemma time_limit_scales_inversely_witness :
  time_limit [[4/5; 3/5]; [-3/5; 4/5]] [-25; 25] 1e-6 2 = Ok 4e-5
  /\ time_limit [[4/5; 3/5]; [-3/5; 4/5]] (scale 2 [-25; 25]) 1e-6 2 = Ok (4e-5 / 2).
Proof.
  split; [exact two_level_first_step|].
  apply (time_limit_scales_inversely [[4/5; 3/5]; [-3/5; 4/5]] [-25; 25] 1e-6 2 2 4e-5).
  - lra.
  - exact two_level_first_step.
Defined.

(** X14.  [hop_complex] applies the real operator to the real and to the
    imaginary part separately: the real part of its result is [hop] of the
    real part of the vector and its imaginary part is [hop] of the
    imaginary part, as long as [contract_2e] returns arrays of one shape
    for both. *)
Theorem hop_complex_acts_on_parts (E : collaborators) (c : cvec) :
  length (hop E (real c)) = length (hop E (imag c)) ->
  real (hop_complex E c) = hop E (real c)
  /\ imag (hop_complex E c) = hop E (imag c).
Proof.
  unfold hop_complex, hop, real, imag.
  generalize (contract_2e_h2e E (map re c)) (contract_2e_h2e E (map im c)).
  intros a. induction a as [|x a IH]; intros [|y b] Hlen; simpl in *;
    try discriminate; [split; reflexivity|].
  injection Hlen as Hlen. destruct (IH b Hlen) as [Hre Him].
  rewrite Hre, Him. split; f_equal; ring.
Qed.

Lemma hop_complex_acts_on_parts_witness :
  real (hop_complex two_level [mkC 1 2; mkC 3 4]) = hop two_level [1; 3]
  /\ imag (hop_complex two_level [mkC 1 2; mkC 3 4]) = hop two_level [2; 4].
Proof.
  apply (hop_complex_acts_on_parts two_level [mkC 1 2; mkC 3 4]).
  reflexivity.
Defined.

(** ** The number of restarts *)

Lemma while_loop_fuel_ge E T e mu nconf i (n fuel : nat) (s0 s : loop_state) :
  while_loop E n T e mu nconf i s0 = Ok s -> (n <= fuel)%nat ->
  while_loop E fuel T e mu nconf i s0 = Ok s.
Proof.
  intros H Hle. induction Hle as [|m _ IH]; [assumption|].
  apply while_loop_more_fuel. assumption.
Qed.

(** X15.  The loop is left after a bounded number of passes when the time
    steps are bounded below.  If every pass from a state the loop reaches
    with its clock below [maxtime] completes with a step estimate of at
    least [step > 0], and [n] steps of that size cover what is left of
    [maxtime] after the first restart, then the axis finishes, after at
    most [n] passes of the loop ([n + 1] restarts), and the bound on the
    passes that the model carries plays no role from [n] on. *)
Theorem restart_count_is_bounded (E : collaborators) (T e : R) (mu : rvec)
  (nconf i : nat) (log0 : list event) (step : R) (n : nat) (s0 : loop_state) :
  0 < step ->
  first_restart E e mu i log0 = Ok s0 ->
  (forall s, loop_head E T e mu nconf i s0 s -> t s < T ->
     exists s', loop_body E e mu nconf i s = Ok s' /\ step <= t_lim s') ->
  T - t s0 <= INR n * step ->
  exists s,
    (forall fuel, (n <= fuel)%nat ->
       propagate_axis E fuel (Some T) e mu nconf i log0 = Ok s)
    /\ (refresh s <= n + 1)%nat.
Proof.
  intros Hstep H0 Hpass Hcover.
  assert (Hloop : forall m s1,
            loop_head E T e mu nconf i s0 s1 ->
            T - t s1 <= INR m * step ->
            exists s, while_loop E m T e mu nconf i s1 = Ok s
                      /\ (refresh s <= refresh s1 + m)%nat).
  { induction m as [|m IH]; intros s1 Hhead Hdist.
    - simpl in *. destruct (Rlt_dec (t s1) T) as [Hlt|_]; [lra|].
      exists s1. split; [reflexivity|lia].
    - change (while_loop E (S m) T e mu nconf i s1)
        with (if Rlt_dec (t s1) T
              then s' <- loop_body E e mu nconf i s1 ;;
                   while_loop E m T e mu nconf i s'
              else Ok s1).
      destruct (Rlt_dec (t s1) T) as [Hlt|_].
      + destruct (Hpass s1 Hhead Hlt) as (s2 & Hbody & Hlow).
        rewrite Hbody. cbn [bind].
        pose proof (loop_body_Ok _ _ _ _ _ _ _ Hbody)
          as (_ & Hclock & _ & _ & _ & _ & _ & Hr).
        destruct (IH s2) as (s & Hs & Hcount).
        * eapply head_next; eassumption.
        * rewrite S_INR in Hdist. lra.
        * exists s. split; [assumption|lia].
      + exists s1. split; [reflexivity|lia]. }
  destruct (Hloop n s0 (head_first _ _ _ _ _ _ _) Hcover) as (s & Hs & Hcount).
  pose proof (first_restart_records _ _ _ _ _ _ H0)
    as (_ & _ & _ & _ & _ & _ & _ & _ & _ & Hr0).
  eexists. split.
  - intros fuel Hfuel. unfold propagate_axis. rewrite H0. cbn [bind].
    rewrite (while_loop_fuel_ge _ _ _ _ _ _ _ _ _ _ Hs Hfuel). cbn [bind]. reflexivity.
  - simpl. lia.
Qed.

Lemma two_level_any_restart (v : cvec) (r : restart) :
  restart_complex two_level v = Ok r -> r_t_lim r = / 7000.
Proof.
  destruct v as [|x [|y [|z l]]]; intros H;
    try (rewrite two_level_restart_complex in H; injection H as <-; reflexivity);
    cbn in H; discriminate.
Qed.

(** With [maxtime = 1e-4] the only state the loop of the two-level system
    reaches with its clock below [maxtime] is the one the first restart
    leaves. *)
Lemma two_level_heads (e : R) (log0 : list event) (s0 s : loop_state) :
  first_restart two_level e [1; 0] 2 log0 = Ok s0 ->
  loop_head two_level 1e-4 e [1; 0] 2 2 s0 s ->
  s = s0 \/ 1e-4 <= t s.
Proof.
  intros H0 Hhead. induction Hhead as [|sa sb _ IH Hlt Hbody]; [left; reflexivity|].
  right. destruct IH as [->|Hge]; [|lra].
  destruct (two_level_first_restart e 1 0 2 log0) as (s0' & H0' & Ht0 & _).
  rewrite H0 in H0'. injection H0' as <-.
  pose proof (loop_body_Ok _ _ _ _ _ _ _ Hbody) as (_ & Hclock & _).
  apply loop_body_restart in Hbody.
  destruct Hbody as (dn & fc & r & _ & _ & Hr & _ & _ & Htl).
  rewrite Hclock, Htl, (two_level_any_restart _ _ Hr), Ht0. lra.
Qed.

Lemma restart_count_is_bounded_witness :
  exists s0 s,
    first_restart two_level (-25) [1; 0] 2 [] = Ok s0
    /\ (forall fuel, (1 <= fuel)%nat ->
          propagate_axis two_level fuel (Some 1e-4) (-25) [1; 0] 2 2 [] = Ok s)
    /\ (refresh s <= 1 + 1)%nat.
Proof.
  destruct (two_level_first_restart (-25) 1 0 2 [])
    as (s0 & H0 & Ht0 & Htl0 & Hd0 & Hlen0 & HA0 & HU0).
  rewrite two_level_propagator in HU0.
  destruct (restart_count_is_bounded two_level 1e-4 (-25) [1; 0] 2 2 [] (/ 7000) 1 s0)
    as (s & Hs).
  - lra.
  - exact H0.
  - intros s1 Hhead Hlt.
    destruct (two_level_heads _ _ _ _ H0 Hhead) as [->|Hge]; [|lra].
    destruct (two_level_pass (-25) _ _ 2 s0 HA0 Hlen0 HU0 Hd0) as (s' & Hbody & Htl).
    exists s'. split; [exact Hbody|]. rewrite Htl. lra.
  - rewrite Ht0. simpl. lra.
  - exists s0, s. split; [exact H0|exact Hs].
Defined.

(** ** The pspace preconditioner *)

Lemma clamped_reciprocal_regular (den : R) :
  1e-8 <= Rabs den -> clamped_reciprocal den = 1 / den.
Proof.
  intros Hden. unfold clamped_reciprocal.
  destruct (Req_dec_T den 0) as [Hz|Hnz].
  { rewrite Hz, Rabs_R0 in Hden. lra. }
  destruct (Rgt_dec (Rabs (1 / den)) 1e8) as [Hgt|_]; [|reflexivity].
  exfalso. unfold Rdiv in Hgt. rewrite Rmult_1_l, Rabs_inv in Hgt.
  assert (Hpos : 0 < Rabs den) by (apply Rabs_pos_lt; assumption).
  assert (Hinv : / Rabs den * Rabs den = 1) by (field; lra).
  nra.
Qed.

Lemma clamped_reciprocal_capped (den : R) :
  Rabs den < 1e-8 -> clamped_reciprocal den = 1e8.
Proof.
  intros Hden. unfold clamped_reciprocal.
  destruct (Req_dec_T den 0) as [Hz|Hnz]; [reflexivity|].
  destruct (Rgt_dec (Rabs (1 / den)) 1e8) as [_|Hle]; [reflexivity|].
  exfalso. apply Hle. unfold Rdiv. rewrite Rmult_1_l, Rabs_inv.
  assert (Hpos : 0 < Rabs den) by (apply Rabs_pos_lt; assumption).
  assert (Hinv : / Rabs den * Rabs den = 1) by (field; lra).
  assert (Hipos : 0 < / Rabs den) by (apply Rinv_0_lt_compat; assumption).
  nra.
Qed.

(** X16.  The diagonal part of the pspace preconditioner is capped: every
    entry of [hdiaginv] lies between -1e8 and 1e8; it is the reciprocal of
    [hdiag - (e0 - level_shift)] where that difference is at least 1e-8 in
    absolute value, and +1e8 otherwise, also where the difference is
    negative or zero. *)
Theorem hdiaginv_is_capped (hdiag : rvec) (shift : R) :
  Forall2 (fun h v =>
             Rabs v <= 1e8
             /\ (1e-8 <= Rabs (h - shift) -> v = 1 / (h - shift))
             /\ (Rabs (h - shift) < 1e-8 -> v = 1e8))
          hdiag (hdiaginv hdiag shift).
Proof.
  unfold hdiaginv. induction hdiag as [|h hdiag IH]; simpl; constructor; [|exact IH].
  split; [|split].
  - destruct (Rlt_dec (Rabs (h - shift)) 1e-8) as [Hlt|Hge].
    + rewrite clamped_reciprocal_capped by assumption. rewrite Rabs_pos_eq; lra.
    + assert (Hge' : 1e-8 <= Rabs (h - shift)) by lra.
      rewrite clamped_reciprocal_regular by assumption.
      unfold Rdiv. rewrite Rmult_1_l, Rabs_inv.
      assert (Hinv : / Rabs (h - shift) * Rabs (h - shift) = 1) by (field; lra).
      assert (Hipos : 0 < / Rabs (h - shift)) by (apply Rinv_0_lt_compat; lra).
      nra.
  - apply clamped_reciprocal_regular.
  - apply clamped_reciprocal_capped.
Qed.

Lemma length_scale (c : R) (v : rvec) : length (scale c v) = length v.
Proof. apply length_map. Qed.

Lemma rdot_scale_l (c : R) (a b : rvec) (z : R) :
  Classes.rdot a b = Ok z -> Classes.rdot (scale c a) b = Ok (c * z).
Proof.
  unfold Classes.rdot. rewrite length_scale.
  destruct (Nat.eqb (length a) (length b)); [|discriminate].
  intros H. injection H as <-. f_equal. clear.
  revert b. induction a as [|x a IH]; intros [|y b]; simpl; try ring.
  rewrite IH. ring.
Qed.

Lemma rdot_scale_r (c : R) (a b : rvec) (z : R) :
  Classes.rdot a b = Ok z -> Classes.rdot a (scale c b) = Ok (c * z).
Proof.
  unfold Classes.rdot. rewrite length_scale.
  destruct (Nat.eqb (length a) (length b)); [|discriminate].
  intros H. injection H as <-. f_equal. clear.
  revert b. induction a as [|x a IH]; intros [|y b]; simpl; try ring.
  rewrite IH. ring.
Qed.

Lemma gather_scale (c : R) (x : rvec) (addr : list nat) (xa : rvec) :
  gather x addr = Ok xa -> gather (scale c x) addr = Ok (scale c xa).
Proof.
  unfold gather. revert xa. induction addr as [|a addr IH]; simpl; intros xa H.
  - injection H as <-. reflexivity.
  - bind_name H as v Hv. bind_name H as vs Hvs. injection H as <-.
    rewrite (IH _ Hvs). unfold getitem in *. unfold scale at 1.
    rewrite nth_error_map. destruct (nth_error x a); [|discriminate].
    injection Hv as <-. reflexivity.
Qed.

Lemma matvec_scale (c : R) (M : rmat) (v w : rvec) :
  matvec M v = Ok w -> matvec M (scale c v) = Ok (scale c w).
Proof.
  unfold matvec. revert w. induction M as [|row M IH]; simpl; intros w H.
  - injection H as <-. reflexivity.
  - bind_name H as z Hz. bind_name H as zs Hzs. injection H as <-.
    rewrite (rdot_scale_r _ _ _ _ Hz), (IH _ Hzs). reflexivity.
Qed.

Lemma set_nth_scale (c : R) (x : rvec) (a : nat) (v : R) :
  set_nth (scale c x) a (c * v) = scale c (set_nth x a v).
Proof.
  revert a. induction x as [|y x IH]; intros [|a]; simpl; try reflexivity.
  rewrite IH. reflexivity.
Qed.

Lemma setitems_scale (c : R) (x : rvec) (addr : list nat) (vals y : rvec) :
  setitems x addr vals = Ok y ->
  setitems (scale c x) addr (scale c vals) = Ok (scale c y).
Proof.
  unfold setitems. rewrite length_scale.
  destruct (Nat.eqb (length addr) (length vals)); [|discriminate].
  revert vals x y. induction addr as [|a addr IH]; intros [|v vals] x y; simpl;
    intros H; try (injection H as <-; reflexivity).
  rewrite length_scale. destruct (a <? length x)%nat; [|discriminate].
  cbn [bind] in *. rewrite set_nth_scale. apply IH. assumption.
Qed.

(** X17.  The correction vector does not depend on the normalisation of the
    trial vector: whenever the preconditioner returns for a residual [r]
    and a trial vector [x0], it returns the same vector for [c * x0],
    whatever the factor [c <> 0]. *)
Theorem precond_ignores_scale_of_x0 (hdiag pspaceig : rvec) (pspaceci : rmat)
  (addr : list nat) (level_shift : R) (r : rvec) (e0 : R) (x0 x1 : rvec) (c : R) :
  c <> 0 ->
  make_pspace_precond hdiag pspaceig pspaceci addr level_shift r e0 x0 = Ok x1 ->
  make_pspace_precond hdiag pspaceig pspaceci addr level_shift r e0 (scale c x0)
  = Ok x1.
Proof.
  intros Hc. unfold make_pspace_precond. intros H.
  bind_name H as h0e0inv Hinv. rewrite Hinv. cbn [bind].
  bind_name H as h0x0 H1. bind_name H as x0a H2. bind_name H as v H3.
  bind_name H as h0x0' H4. bind_name H as h0r H5. bind_name H as ra H6.
  bind_name H as v' H7. bind_name H as h0r' H8. bind_name H as num H9.
  bind_name H as den H10.
  destruct (Req_dec_T den 0) as [|Hden]; [discriminate|].
  unfold scale at 1. rewrite (mul_broadcast_scale_l c _ _ _ H1). cbn [bind].
  rewrite (gather_scale c _ _ _ H2). cbn [bind].
  rewrite (matvec_scale c _ _ _ H3). cbn [bind].
  fold (scale c h0x0). rewrite (setitems_scale c _ _ _ _ H4). cbn [bind].
  rewrite H5. cbn [bind]. rewrite H6. cbn [bind]. rewrite H7. cbn [bind].
  rewrite H8. cbn [bind].
  rewrite (rdot_scale_l c _ _ _ H9). cbn [bind].
  rewrite (rdot_scale_l c _ _ _ (rdot_scale_r c _ _ _ H10)). cbn [bind].
  destruct (Req_dec_T (c * (c * den)) 0) as [Hz|_].
  { exfalso. apply Rmult_integral in Hz. destruct Hz as [Hz|Hz]; [lra|].
    apply Rmult_integral in Hz. destruct Hz; lra. }
  assert (Hsame : scale (c * num / (c * (c * den))) (scale c x0) = scale (num / den) x0).
  { unfold scale. rewrite map_map. apply map_ext. intros z. field. split; assumption. }
  rewrite Hsame. exact H.
Qed.

(** The preconditioner on a two-determinant space whose pspace is the first
    determinant. *)
Lemma precond_example :
  exists x1, make_pspace_precond [2; 5] [2] [[1]] [0%nat] 0 [1; 1] 1 [1; 1] = Ok x1.
Proof.
  unfold make_pspace_precond, h0e0inv, hdiaginv.
  replace (1 - 0) with 1 by lra.
  cbn [map]. replace (2 - 1) with 1 by lra. replace (5 - 1) with 4 by lra.
  rewrite !clamped_reciprocal_regular by (rewrite Rabs_pos_eq; lra).
  cbn -[Req_dec_T].
  destruct (Req_dec_T 1 0) as [Hz|_]; [exfalso; lra|].
  cbn -[Req_dec_T].
  match goal with
  | |- context [Req_dec_T ?a 0] => destruct (Req_dec_T a 0) as [Hz|_]; [exfalso; lra|]
  end.
  cbn. eexists. reflexivity.
Qed.

Lemma precond_ignores_scale_of_x0_witness :
  exists x1,
    make_pspace_precond [2; 5] [2] [[1]] [0%nat] 0 [1; 1] 1 [1; 1] = Ok x1
    /\ make_pspace_precond [2; 5] [2] [[1]] [0%nat] 0 [1; 1] 1 (scale 2 [1; 1]) = Ok x1.
Proof.
  destruct precond_example as (x1 & H).
  exists x1. split; [exact H|].
  apply (precond_ignores_scale_of_x0 [2; 5] [2] [[1]] [0%nat] 0 [1; 1] 1 [1; 1] x1 2).
  - lra.
  - exact H.
Defined.

(** ** The initial guess *)

Lemma rsum_zeros_l (n : nat) (v : rvec) :
  rsum (map (fun p => fst p * snd p) (combine (repeat 0 n) v)) = 0.
Proof.
  revert v. induction n as [|n IH]; intros [|y v]; simpl; try reflexivity.
  rewrite IH. ring.
Qed.

Lemma rsum_zeros_r (n : nat) (v : rvec) :
  rsum (map (fun p => fst p * snd p) (combine v (repeat 0 n))) = 0.
Proof.
  revert v. induction n as [|n IH]; intros [|y v]; simpl; try reflexivity.
  rewrite IH. ring.
Qed.

Lemma unit_vectors_overlap (n a b : nat) :
  (a < n)%nat -> (b < n)%nat ->
  rsum (map (fun p => fst p * snd p)
            (combine (set_nth (repeat 0 n) a 1) (set_nth (repeat 0 n) b 1)))
  = if Nat.eqb a b then 1 else 0.
Proof.
  revert a b. induction n as [|n IH]; intros a b Ha Hb; [lia|].
  destruct a as [|a], b as [|b]; simpl.
  - rewrite rsum_zeros_l. ring.
  - rewrite rsum_zeros_l. ring.
  - rewrite rsum_zeros_r. ring.
  - rewrite IH by lia. ring.
Qed.

Lemma map_run_unit_vectors (n : nat) (addrs : list nat) :
  Forall (fun a => (a < n)%nat) addrs ->
  map_run (unit_vector n) addrs = Ok (map (fun a => set_nth (repeat 0 n) a 1) addrs).
Proof.
  induction 1 as [|a addrs Ha _ IH]; simpl; [reflexivity|].
  unfold unit_vector at 1. apply Nat.ltb_lt in Ha. rewrite Ha. cbn [bind].
  rewrite IH. reflexivity.
Qed.

Lemma NoDup_firstn_of {K : Type} (k : nat) (l : list K) : NoDup l -> NoDup (firstn k l).
Proof.
  intros H. rewrite <- (firstn_skipn k l) in H. apply NoDup_app_remove_r in H.
  assumption.
Qed.

Lemma Forall_firstn_of {K : Type} (P : K -> Prop) (k : nat) (l : list K) :
  Forall P l -> Forall P (firstn k l).
Proof.
  intros H. rewrite <- (firstn_skipn k l) in H. apply Forall_app in H. tauto.
Qed.

(** The run of [_get_init_guess] when the number of roots fits. *)
Lemma get_init_guess_Ok (arg_partition : rvec -> nat -> list nat)
  (na nb nroots : nat) (hdiag : rvec) :
  length hdiag = (na * nb)%nat ->
  (0 < nroots <= na * nb)%nat ->
  Forall (fun a => (a < na * nb)%nat) (arg_partition hdiag (nroots - 1)%nat) ->
  _get_init_guess arg_partition na nb nroots hdiag
  = Ok (map (fun a => set_nth (repeat 0 (na * nb)) a 1)
            (firstn nroots (arg_partition hdiag (nroots - 1)%nat))).
Proof.
  intros Hlen Hn Hall. unfold _get_init_guess, argpartition. rewrite Hlen.
  assert (Hk : (Z.of_nat nroots - 1 <? 0)%Z = false) by (apply Z.ltb_ge; lia).
  rewrite Hk, Hk.
  assert (Hb : (Z.of_nat (na * nb) <=? Z.of_nat nroots - 1)%Z = false)
    by (apply Z.leb_gt; lia).
  rewrite Hb, andb_false_r. cbn [bind].
  replace (Z.to_nat (Z.of_nat nroots - 1)) with (nroots - 1)%nat by lia.
  apply map_run_unit_vectors. apply Forall_firstn_of. assumption.
Qed.

(** X18.  The initial guess is orthonormal: for [0 < nroots <= na*nb],
    [_get_init_guess] returns [nroots] vectors of length [na*nb] whose
    pairwise products are 1 on the diagonal and 0 off it. *)
Theorem init_guess_is_orthonormal (arg_partition : rvec -> nat -> list nat)
  (na nb nroots : nat) (hdiag : rvec) :
  length hdiag = (na * nb)%nat ->
  (0 < nroots <= na * nb)%nat ->
  index_permutation (length hdiag) (arg_partition hdiag (nroots - 1)%nat) ->
  exists ci0,
    _get_init_guess arg_partition na nb nroots hdiag = Ok ci0
    /\ length ci0 = nroots
    /\ forall i j, (i < nroots)%nat -> (j < nroots)%nat ->
         length (nth i ci0 []) = (na * nb)%nat
         /\ Classes.rdot (nth i ci0 []) (nth j ci0 [])
            = Ok (if Nat.eqb i j then 1 else 0).
Proof.
  intros Hlen Hn (Hpl & Hnd & Hall). rewrite Hlen in Hpl, Hall.
  eexists. split; [apply get_init_guess_Ok; assumption|].
  set (p := arg_partition hdiag (nroots - 1)%nat) in *.
  assert (Hfl : length (firstn nroots p) = nroots) by (rewrite length_firstn; lia).
  split; [rewrite length_map; exact Hfl|].
  intros i j Hi Hj.
  assert (Hnth : forall k, (k < nroots)%nat ->
            nth k (map (fun a => set_nth (repeat 0 (na * nb)) a 1) (firstn nroots p)) []
            = set_nth (repeat 0 (na * nb)) (nth k (firstn nroots p) O) 1
            /\ (nth k (firstn nroots p) O < na * nb)%nat).
  { intros k Hk. split.
    - rewrite (nth_indep _ [] (set_nth (repeat 0 (na * nb)) O 1))
        by (rewrite length_map; lia).
      apply (map_nth (fun a => set_nth (repeat 0 (na * nb)) a 1)).
    - apply (Forall_firstn_of _ nroots) in Hall. rewrite Forall_forall in Hall.
      apply Hall. apply nth_In. lia. }
  unfold rvec. destruct (Hnth i Hi) as [-> Hai]. destruct (Hnth j Hj) as [-> Haj].
  split; [rewrite length_set_nth, repeat_length; reflexivity|].
  unfold Classes.rdot. rewrite !length_set_nth, Nat.eqb_refl.
  rewrite unit_vectors_overlap by assumption. f_equal.
  pose proof (NoDup_firstn_of nroots p Hnd) as Hndf.
  destruct (Nat.eqb i j) eqn:Hij.
  - apply Nat.eqb_eq in Hij. subst j. rewrite Nat.eqb_refl. reflexivity.
  - apply Nat.eqb_neq in Hij.
    destruct (Nat.eqb _ _) eqn:Hab; [|reflexivity].
    apply Nat.eqb_eq in Hab. exfalso. apply Hij.
    apply (proj1 (NoDup_nth (firstn nroots p) O) Hndf); rewrite ?Hfl; assumption.
Qed.

Lemma init_guess_is_orthonormal_witness :
  exists ci0,
    _get_init_guess (fun a _ => seq 0 (length a)) 2 1 2 [1; 2] = Ok ci0
    /\ length ci0 = 2%nat
    /\ forall i j, (i < 2)%nat -> (j < 2)%nat ->
         length (nth i ci0 []) = (2 * 1)%nat
         /\ Classes.rdot (nth i ci0 []) (nth j ci0 [])
            = Ok (if Nat.eqb i j then 1 else 0).
Proof.
  apply (init_guess_is_orthonormal (fun a _ => seq 0 (length a)) 2 1 2 [1; 2]).
  - reflexivity.
  - simpl. lia.
  - split; [reflexivity|]. split.
    + apply seq_NoDup.
    + simpl. repeat constructor.
Defined.

(** X19.  The initial guess sits on the lowest determinants: the [nroots]
    vectors are the unit vectors at [nroots] distinct addresses, and no
    address left out has a smaller diagonal element than a chosen one. *)
Theorem init_guess_takes_lowest_determinants (arg_partition : rvec -> nat -> list nat)
  (na nb nroots : nat) (hdiag : rvec) :
  length hdiag = (na * nb)%nat ->
  (0 < nroots <= na * nb)%nat ->
  index_permutation (length hdiag) (arg_partition hdiag (nroots - 1)%nat) ->
  partitioned hdiag (nroots - 1) (arg_partition hdiag (nroots - 1)%nat) ->
  exists addrs,
    _get_init_guess arg_partition na nb nroots hdiag
    = Ok (map (fun a => set_nth (repeat 0 (na * nb)) a 1) addrs)
    /\ length addrs = nroots
    /\ NoDup addrs
    /\ forall c u, In c addrs -> (u < na * nb)%nat -> ~ In u addrs ->
                   nth c hdiag 0 <= nth u hdiag 0.
Proof.
  intros Hlen Hn (Hpl & Hnd & Hall) Hpart. rewrite Hlen in Hpl, Hall.
  set (p := arg_partition hdiag (nroots - 1)%nat) in *.
  exists (firstn nroots p).
  split; [apply get_init_guess_Ok; assumption|].
  split; [rewrite length_firstn; lia|].
  split; [apply NoDup_firstn_of; assumption|].
  intros c u Hc Hu Hnot.
  assert (Hin : In u p).
  { apply (NoDup_length_incl Hnd (l' := seq 0 (na * nb))).
    - rewrite length_seq. lia.
    - intros a Ha. rewrite Forall_forall in Hall. apply in_seq.
      specialize (Hall a Ha). lia.
    - apply in_seq. lia. }
  rewrite <- (firstn_skipn nroots p) in Hin. apply in_app_or in Hin.
  destruct Hin as [Hin|Hin]; [contradiction|].
  apply (In_nth _ _ O) in Hc. destruct Hc as (i & Hi & <-).
  apply (In_nth _ _ O) in Hin. destruct Hin as (j & Hj & <-).
  rewrite length_firstn in Hi. rewrite length_skipn in Hj.
  rewrite nth_firstn. replace (i <? nroots)%nat with true by (symmetry; apply Nat.ltb_lt; lia).
  rewrite nth_skipn.
  apply Hpart; lia.
Qed.

Lemma init_guess_takes_lowest_determinants_witness :
  exists addrs,
    _get_init_guess (fun a _ => seq 0 (length a)) 2 1 1 [1; 2]
    = Ok (map (fun a => set_nth (repeat 0 (2 * 1)) a 1) addrs)
    /\ length addrs = 1%nat
    /\ NoDup addrs
    /\ forall c u, In c addrs -> (u < 2 * 1)%nat -> ~ In u addrs ->
                   nth c [1; 2] 0 <= nth u [1; 2] 0.
Proof.
  apply (init_guess_takes_lowest_determinants (fun a _ => seq 0 (length a)) 2 1 1 [1; 2]).
  - reflexivity.
  - simpl. lia.
  - split; [reflexivity|]. split.
    + apply seq_NoDup.
    + simpl. repeat constructor.
  - intros i j Hi Hj Hlt. simpl in *.
    assert (Hi0 : i = 0%nat) by lia. subst i.
    destruct j as [|[|j]]; simpl in *; try lra; lia.
Defined.

(** X20.  Asking for more roots than there are determinants is an error
    of [_get_init_guess] itself: [argpartition] rejects [kth = nroots - 1]
    with [ValueError] (the drivers cap [nroots] before they call it). *)
Theorem init_guess_rejects_too_many_roots (arg_partition : rvec -> nat -> list nat)
  (na nb nroots : nat) (hdiag : rvec) :
  (0 < length hdiag < nroots)%nat ->
  _get_init_guess arg_partition na nb nroots hdiag = Raise ValueError.
Proof.
  intros Hn. unfold _get_init_guess, argpartition.
  assert (Hk : (Z.of_nat nroots - 1 <? 0)%Z = false) by (apply Z.ltb_ge; lia).
  rewrite Hk, Hk.
  assert (Hb : (Z.of_nat (length hdiag) <=? Z.of_nat nroots - 1)%Z = true)
    by (apply Z.leb_le; lia).
  assert (He : Nat.eqb (length hdiag) 0 = false) by (apply Nat.eqb_neq; lia).
  rewrite Hb, He. reflexivity.
Qed.

Lemma init_guess_rejects_too_many_roots_witness :
  _get_init_guess (fun a _ => seq 0 (length a)) 2 1 3 [1; 2] = Raise ValueError.
Proof.
  apply (init_guess_rejects_too_many_roots (fun a _ => seq 0 (length a)) 2 1 3 [1; 2]).
  simpl. lia.
Defined.

(** ** The one-body absorption *)

Lemma absorb_blocks (f1e : array2) (n : nat) (h2e : array4) (p q r s : nat) :
  fold_left (fun h k => add_right_block k f1e (add_left_block k f1e h)) (range n) h2e
            p q r s
  = h2e p q r s
    + (if Nat.eqb p q && Nat.ltb p n then f1e r s else 0)
    + (if Nat.eqb r s && Nat.ltb r n then f1e p q else 0).
Proof.
  unfold range. revert p q r s. induction n as [|n IH]; intros p q r s.
  - simpl. rewrite !andb_false_r. ring.
  - rewrite seq_S, fold_left_app. simpl.
    unfold add_right_block, add_left_block. rewrite !IH.
    destruct (Nat.eqb_spec p n), (Nat.eqb_spec q n), (Nat.eqb_spec p q),
      (Nat.ltb_spec p n), (Nat.ltb_spec p (S n)); simpl; try lia;
      destruct (Nat.eqb_spec r n), (Nat.eqb_spec s n), (Nat.eqb_spec r s),
        (Nat.ltb_spec r n), (Nat.ltb_spec r (S n)); simpl; try lia; ring.
Qed.

(** X21.  What [absorb_h1e] returns, entry by entry: the two-body integral
    plus the scaled one-body matrix [f1e] on the blocks whose first, and
    whose second, index pair is diagonal (twice where both are), all times
    [fac]. *)
Theorem absorb_h1e_entries (h1e : array2) (h2e : array4) (norb nelec : nat) (fac : R)
  (p q r s : nat) :
  (p < norb)%nat -> (r < norb)%nat ->
  absorb_h1e_array h1e h2e norb nelec fac p q r s
  = (h2e p q r s
     + (if Nat.eqb p q then absorb_h1e_f1e h1e h2e norb nelec r s else 0)
     + (if Nat.eqb r s then absorb_h1e_f1e h1e h2e norb nelec p q else 0)) * fac.
Proof.
  intros Hp Hr. unfold absorb_h1e_array. rewrite absorb_blocks.
  apply Nat.ltb_lt in Hp, Hr. rewrite Hp, Hr, !andb_true_r. reflexivity.
Qed.

Lemma absorb_h1e_entries_witness :
  absorb_h1e_array (fun j k => INR (j + k)) (fun p q r s => INR ((p + q) * (r + s)))
                   2 2 0.5 1%nat 1%nat 0%nat 1%nat
  = (INR ((1 + 1) * (0 + 1))
     + (if Nat.eqb 1 1
        then absorb_h1e_f1e (fun j k => INR (j + k))
                            (fun p q r s => INR ((p + q) * (r + s))) 2 2 0%nat 1%nat
        else 0)
     + (if Nat.eqb 0 1
        then absorb_h1e_f1e (fun j k => INR (j + k))
                            (fun p q r s => INR ((p + q) * (r + s))) 2 2 1%nat 1%nat
        else 0)) * 0.5.
Proof.
  apply (absorb_h1e_entries (fun j k => INR (j + k))
           (fun p q r s => INR ((p + q) * (r + s))) 2 2 0.5 1%nat 1%nat 0%nat 1%nat); lia.
Defined.

Lemma absorb_h1e_f1e_symmetric (h1e : array2) (h2e : array4) (norb nelec : nat) :
  (forall j k, h1e j k = h1e k j) ->
  (forall p q r s, h2e p q r s = h2e q p r s) ->
  (forall p q r s, h2e p q r s = h2e p q s r) ->
  (forall p q r s, h2e p q r s = h2e r s p q) ->
  forall j k,
    absorb_h1e_f1e h1e h2e norb nelec j k = absorb_h1e_f1e h1e h2e norb nelec k j.
Proof.
  intros H1 Hleft Hright Hpair j k. unfold absorb_h1e_f1e, einsum_jiik_jk.
  rewrite (H1 j k). do 3 f_equal. f_equal.
  apply map_ext. intros i.
  rewrite (Hleft j i i k), (Hright i j i k). apply Hpair.
Qed.

(** X22.  The absorption keeps the permutational symmetry of real
    integrals: for a symmetric [h1e] and an [h2e] with
    [(pq|rs) = (qp|rs) = (pq|sr) = (rs|pq)], the result has the same three
    symmetries; the first two are those by which [ao2mo.restore(4, ...)]
    packs its argument. *)
Theorem absorb_h1e_keeps_symmetry (h1e : array2) (h2e : array4) (norb nelec : nat)
  (fac : R) (p q r s : nat) :
  (forall j k, h1e j k = h1e k j) ->
  (forall p q r s, h2e p q r s = h2e q p r s) ->
  (forall p q r s, h2e p q r s = h2e p q s r) ->
  (forall p q r s, h2e p q r s = h2e r s p q) ->
  (p < norb)%nat -> (q < norb)%nat -> (r < norb)%nat -> (s < norb)%nat ->
  absorb_h1e_array h1e h2e norb nelec fac p q r s
  = absorb_h1e_array h1e h2e norb nelec fac q p r s
  /\ absorb_h1e_array h1e h2e norb nelec fac p q r s
     = absorb_h1e_array h1e h2e norb nelec fac p q s r
  /\ absorb_h1e_array h1e h2e norb nelec fac p q r s
     = absorb_h1e_array h1e h2e norb nelec fac r s p q.
Proof.
  intros H1 Hleft Hright Hpair Hp Hq Hr Hs.
  pose proof (absorb_h1e_f1e_symmetric h1e h2e norb nelec H1 Hleft Hright Hpair) as Hf.
  unfold absorb_h1e_array. rewrite !absorb_blocks.
  apply Nat.ltb_lt in Hp, Hq, Hr, Hs. rewrite Hp, Hq, Hr, Hs, !andb_true_r.
  rewrite (Nat.eqb_sym q p), (Nat.eqb_sym s r).
  rewrite (Hf s r), (Hf q p). split; [|split].
  - rewrite (Hleft p q r s). ring.
  - rewrite (Hright p q r s). ring.
  - rewrite (Hpair p q r s). ring.
Qed.

Lemma absorb_h1e_keeps_symmetry_witness :
  absorb_h1e_array (fun j k => INR (j + k)) (fun p q r s => INR ((p + q) * (r + s)))
                   2 2 0.5 0%nat 1%nat 1%nat 1%nat
  = absorb_h1e_array (fun j k => INR (j + k)) (fun p q r s => INR ((p + q) * (r + s)))
                     2 2 0.5 1%nat 0%nat 1%nat 1%nat
  /\ absorb_h1e_array (fun j k => INR (j + k)) (fun p q r s => INR ((p + q) * (r + s)))
                      2 2 0.5 0%nat 1%nat 1%nat 1%nat
     = absorb_h1e_array (fun j k => INR (j + k)) (fun p q r s => INR ((p + q) * (r + s)))
                        2 2 0.5 0%nat 1%nat 1%nat 1%nat
  /\ absorb_h1e_array (fun j k => INR (j + k)) (fun p q r s => INR ((p + q) * (r + s)))
                      2 2 0.5 0%nat 1%nat 1%nat 1%nat
     = absorb_h1e_array (fun j k => INR (j + k)) (fun p q r s => INR ((p + q) * (r + s)))
                        2 2 0.5 1%nat 1%nat 0%nat 1%nat.
Proof.
  apply (absorb_h1e_keeps_symmetry (fun j k => INR (j + k))
           (fun p q r s => INR ((p + q) * (r + s))) 2 2 0.5 0 1 1 1).
  - intros j k. f_equal. lia.
  - intros p q r s. f_equal. lia.
  - intros p q r s. f_equal. lia.
  - intros p q r s. f_equal. lia.
  - lia.
  - lia.
  - lia.
  - lia.
Defined.

(** ** The vector that seeds the next Krylov basis *)

Lemma iadd_scaled_length (fcivec A_tmp : cvec) (z : C) (v : cvec) :
  iadd_scaled fcivec A_tmp z = Ok v -> length v = length fcivec.
Proof.
  unfold iadd_scaled. destruct (Nat.eqb (length A_tmp) (length fcivec)) eqn:Hl.
  - apply Nat.eqb_eq in Hl. intros H. injection H as <-.
    rewrite length_map, length_combine. lia.
  - destruct A_tmp as [|a [|a' A']]; intros H; try discriminate.
    injection H as <-. apply length_map.
Qed.

Lemma cnorm_scale (x : R) (v : cvec) :
  0 <= x -> cnorm (map (Cscale x) v) = x * cnorm v.
Proof.
  intros Hx. unfold cnorm.
  assert (Hsum : rsum (map Cnorm2 (map (Cscale x) v)) = (x * x) * rsum (map Cnorm2 v)).
  { induction v as [|z v IH]; simpl; [ring|]. rewrite IH. unfold Cnorm2. simpl. ring. }
  rewrite Hsum, sqrt_mult_alt by nra. rewrite sqrt_square by assumption. reflexivity.
Qed.

(** X23.  Every later restart starts from a unit vector of the full
    space: the vector rebuilt from the Krylov basis and the propagated
    amplitudes has [nconf] entries and, after the division by its norm,
    norm one. *)
Theorem reconstructed_vector_is_normalised (nconf : nat) (A0 : list cvec) (m : nat)
  (d_next fcivec : cvec) :
  reconstruct nconf A0 m d_next = Ok fcivec ->
  length fcivec = nconf /\ cnorm fcivec = 1.
Proof.
  unfold reconstruct. intros H. bind_name H as v Hv.
  assert (Hlen : length v = nconf).
  { revert Hv. generalize (range m). intros ks.
    assert (Hgen : forall v0, length v0 = nconf ->
              for_each (fun fcivec k =>
                          A_tmp <- getitem A0 k ;;
                          z <- getitem d_next k ;;
                          iadd_scaled fcivec A_tmp z) ks v0 = Ok v ->
              length v = nconf).
    { induction ks as [|k ks IH]; simpl; intros v0 H0 Hrun.
      - injection Hrun as <-. assumption.
      - bind_name Hrun as v1 H1. bind_name H1 as A_tmp HA. bind_name H1 as z Hz.
        apply iadd_scaled_length in H1. apply (IH v1); [lia|assumption]. }
    apply Hgen. apply repeat_length. }
  destruct (Req_dec_T (cnorm v) 0) as [|Hnz]; [discriminate|].
  injection H as <-. split; [rewrite length_map; assumption|].
  assert (Hpos : 0 < cnorm v).
  { unfold cnorm in *. pose proof (sqrt_pos (rsum (map Cnorm2 v))). lra. }
  rewrite cnorm_scale by (left; apply Rinv_0_lt_compat; assumption).
  field. lra.
Qed.

Lemma reconstruct_example :
  exists v, reconstruct 2 [[C1; C0]; [C0; C1]] 2 [C1; C0] = Ok v.
Proof.
  unfold reconstruct. cbn -[cnorm Req_dec_T].
  match goal with
  | |- context [Req_dec_T (cnorm (?z :: ?l)) 0] =>
      destruct (Req_dec_T (cnorm (z :: l)) 0) as [Hz|_];
      [exfalso; revert Hz; apply cnorm_nonzero; unfold Cnorm2; simpl; ring|]
  end.
  eexists. reflexivity.
Qed.

Lemma reconstructed_vector_is_normalised_witness :
  exists v,
    reconstruct 2 [[C1; C0]; [C0; C1]] 2 [C1; C0] = Ok v
    /\ length v = 2%nat /\ cnorm v = 1.
Proof.
  destruct reconstruct_example as (v & H).
  exists v. split; [exact H|].
  exact (reconstructed_vector_is_normalised 2 [[C1; C0]; [C0; C1]] 2 [C1; C0] v H).
Defined.

(** ** The symmetry of the reduced Hamiltonian *)

(** X24.  The assembled reduced Hamiltonian is symmetric on the first,
    real pass, and on the later passes its off-diagonal entries are
    complex conjugates of each other (its diagonal holds [alpha] as the
    recurrence returned it). *)
Theorem assembled_Ht_is_hermitian (ra rb : rvec) (ca cb : cvec) (r c : nat) :
  (length ra - 2 <= length rb)%nat ->
  (length ca - 2 <= length cb)%nat ->
  (r < length ra)%nat -> (c < length ra)%nat ->
  (r < length ca)%nat -> (c < length ca)%nat ->
  r <> c ->
  (exists M, build_Ht 0 (fun b => b) ra rb = Ok M
             /\ nth c (nth r M []) 0 = nth r (nth c M []) 0)
  /\ (exists M, build_Ht C0 Cconj ca cb = Ok M
                /\ nth c (nth r M []) C0 = Cconj (nth r (nth c M []) C0)).
Proof.
  intros Hr Hc Hlr Hlc Hlr' Hlc' Hne.
  assert (Hcr : Nat.eqb c r = false) by (apply Nat.eqb_neq; congruence).
  assert (Hrc : Nat.eqb r c = false) by (apply Nat.eqb_neq; congruence).
  split.
  - destruct (build_Ht_entries 0 (fun b => b) ra rb Hr) as (M & HM & _ & Hent).
    exists M. split; [assumption|].
    rewrite (Hent r c Hlr Hlc), (Hent c r Hlc Hlr). unfold assembled_entry.
    rewrite Hcr, Hrc.
    destruct (Nat.eqb_spec c (r + 1)) as [H1|H1];
      destruct (Nat.eqb_spec r (c + 1)) as [H2|H2]; simpl; try lia; reflexivity.
  - destruct (build_Ht_entries C0 Cconj ca cb Hc) as (M & HM & _ & Hent).
    exists M. split; [assumption|].
    rewrite (Hent r c Hlr' Hlc'), (Hent c r Hlc' Hlr'). unfold assembled_entry.
    rewrite Hcr, Hrc.
    destruct (Nat.eqb_spec c (r + 1)) as [H1|H1];
      destruct (Nat.eqb_spec r (c + 1)) as [H2|H2]; simpl; try lia;
      repeat match goal with
             | |- context [Nat.ltb ?a ?b] => destruct (Nat.ltb a b)
             end;
      apply C_eq; simpl; ring.
Qed.

Lemma assembled_Ht_is_hermitian_witness :
  (exists M, build_Ht 0 (fun b => b) [1; 2; 3] [4; 5] = Ok M
             /\ nth 1 (nth 0 M []) 0 = nth 0 (nth 1 M []) 0)
  /\ (exists M, build_Ht C0 Cconj [RtoC 1; RtoC 2; RtoC 3] [mkC 4 1; mkC 5 1] = Ok M
                /\ nth 1 (nth 0 M []) C0 = Cconj (nth 0 (nth 1 M []) C0)).
Proof.
  apply (assembled_Ht_is_hermitian [1; 2; 3] [4; 5]
           [RtoC 1; RtoC 2; RtoC 3] [mkC 4 1; mkC 5 1] 0 1); simpl; lia.
Defined.
